(** * Minesweeper: the board, logical sentences and the knowledge-based player

    A shallow embedding of [minesweeper.py].  Python integers are [Z],
    a cell is a pair of integers, a Python [set] of cells is a [gset],
    and the list [knowledge] is a [list] of sentence values (every
    sentence object is appended to [knowledge] once, so the list owns its
    sentences and in-place mutation is an update of the list element).
    Methods that mutate [self] return the new value of [self]; methods
    that only read [self] are plain functions of it.  A [for] loop over a
    Python set visits its members in the order of [elements]; the loops
    concerned only test membership and remove cells, and the lemmas about
    them are stated through membership. *)

From stdpp Require Import gmap list.
From Stdlib Require Import ZArith Lia.

Local Open Scope Z_scope.

Abbreviation cell := (Z * Z)%type.

(** ** class Sentence *)

Module Sentence.

Record Sentence := mk { cells : gset cell; count : Z }.

(** [__eq__]: same cell set and same count. *)
#[global] Instance eq_dec : EqDecision Sentence.
Proof. solve_decision. Defined.

Definition known_mines (self : Sentence) : gset cell :=
  if bool_decide (Z.of_nat (size (cells self)) = count self)
  then cells self else ∅.

Definition known_safes (self : Sentence) : gset cell :=
  if bool_decide (count self = 0) then cells self else ∅.

(** [mark_mine] and [mark_safe] return the flag and the updated sentence. *)
Definition mark_mine (self : Sentence) (c : cell) : bool * Sentence :=
  if bool_decide (c ∈ cells self)
  then (true, mk (cells self ∖ {[c]}) (count self - 1))
  else (false, self).

Definition mark_safe (self : Sentence) (c : cell) : bool * Sentence :=
  if bool_decide (c ∈ cells self)
  then (true, mk (cells self ∖ {[c]}) (count self))
  else (false, self).

End Sentence.

Abbreviation Sentence := Sentence.Sentence.

(** ** class MinesweeperAI *)

Module MinesweeperAI.

Record AI := mk {
  height : Z;
  width : Z;
  moves_made : gset cell;
  mines : gset cell;
  safes : gset cell;
  knowledge : list Sentence
}.

(** [__init__] *)
Definition init (h w : Z) : AI := mk h w ∅ ∅ ∅ [].

Definition set_knowledge (self : AI) (k : list Sentence) : AI :=
  mk (height self) (width self) (moves_made self) (mines self) (safes self) k.

(** [mark_mine]: the result of each sentence's [mark_mine] is dropped. *)
Definition mark_mine (self : AI) (c : cell) : AI :=
  mk (height self) (width self) (moves_made self)
     (mines self ∪ {[c]}) (safes self)
     (map (λ sentence, snd (Sentence.mark_mine sentence c)) (knowledge self)).

Definition mark_safe (self : AI) (c : cell) : AI :=
  mk (height self) (width self) (moves_made self)
     (mines self) (safes self ∪ {[c]})
     (map (λ sentence, snd (Sentence.mark_safe sentence c)) (knowledge self)).

(** The two inner loops of [mark_cells]: a cell is appended to the local
    list when it is neither in that list nor in the known set. *)
Definition collect (known : gset cell) (acc : list cell) (found : gset cell)
  : list cell :=
  foldl (λ acc c,
           if bool_decide ((c ∉ acc) ∧ (c ∉ known)) then acc ++ [c] else acc)
        acc (elements found).

(** The scan of [mark_cells]: the local lists [safes] and [mines]. *)
Definition scan (self : AI) : list cell * list cell :=
  foldl (λ lists sentence,
           (collect (safes self) (fst lists) (Sentence.known_safes sentence),
            collect (mines self) (snd lists) (Sentence.known_mines sentence)))
        ([], []) (knowledge self).

Definition mark_cells (self : AI) : AI :=
  let lists := scan self in
  foldl mark_mine (foldl mark_safe self (fst lists)) (snd lists).

(** The list [neighbors] built by [add_knowledge] for [cell]. *)
Definition neighbors (self : AI) (c : cell) : list cell :=
  let i := fst c in
  let j := snd c in
  (if bool_decide (i > 0) then
     [(i - 1, j)]
     ++ (if bool_decide (j > 0) then [(i - 1, j - 1)] else [])
     ++ (if bool_decide (j < width self - 1) then [(i - 1, j + 1)] else [])
   else [])
  ++ (if bool_decide (i < height self - 1) then
     [(i + 1, j)]
     ++ (if bool_decide (j > 0) then [(i + 1, j - 1)] else [])
     ++ (if bool_decide (j < width self - 1) then [(i + 1, j + 1)] else [])
   else [])
  ++ (if bool_decide (j < width self - 1) then [(i, j + 1)] else [])
  ++ (if bool_decide (j > 0) then [(i, j - 1)] else []).

(** "Update newSentence considering known mines in the vicinity": the
    loop over [self.mines] runs once per sentence of [self.knowledge]. *)
Definition strip_mines (known_mines : gset cell) (s : Sentence) : Sentence :=
  foldl (λ s known_mine,
           if bool_decide (known_mine ∈ Sentence.cells s)
           then snd (Sentence.mark_mine s known_mine) else s)
        s (elements known_mines).

Definition update_new (self : AI) (newSentence : Sentence) : Sentence :=
  foldl (λ s _, strip_mines (mines self) s) newSentence (knowledge self).

(** Lines 201-243: record the move, build [newSentence], append it when
    no equal sentence is in [knowledge]. *)
Definition add_sentence (self : AI) (c : cell) (n : Z) : AI :=
  let self1 := mk (height self) (width self) (moves_made self ∪ {[c]})
                  (mines self) (safes self ∪ {[c]}) (knowledge self) in
  let cells := filter (λ neighbor, neighbor ∉ safes self1) (neighbors self1 c) in
  let newSentence := update_new self1 (Sentence.mk (list_to_set cells) n) in
  if bool_decide (newSentence ∈ knowledge self1) then self1
  else set_knowledge self1 (knowledge self1 ++ [newSentence]).

(** Lines 249-264: the list [new_sentences]. *)
Definition infer (k : list Sentence) (sentence1 sentence2 : Sentence)
  : list Sentence :=
  if bool_decide (sentence1 ≠ sentence2) then
    if bool_decide (Sentence.cells sentence1 ⊆ Sentence.cells sentence2) then
      let modified_set := Sentence.cells sentence2 ∖ Sentence.cells sentence1 in
      let modified_count := Sentence.count sentence2 - Sentence.count sentence1 in
      if bool_decide (Z.of_nat (size modified_set) > 0 ∧ modified_count >= 0) then
        let new_sentence := Sentence.mk modified_set modified_count in
        if bool_decide (new_sentence ∉ k) then [new_sentence] else []
      else []
    else []
  else [].

Definition new_sentences (k : list Sentence) : list Sentence :=
  flat_map (λ sentence1, flat_map (λ sentence2, infer k sentence1 sentence2) k) k.

(** Lines 249-268: every element of [new_sentences] is appended. *)
Definition resolve (self : AI) : AI :=
  set_knowledge self (knowledge self ++ new_sentences (knowledge self)).

Definition add_knowledge (self : AI) (c : cell) (n : Z) : AI :=
  mark_cells (resolve (mark_cells (add_sentence self c n))).

(** [make_random_move]: [None] is Python's [None]. *)
Definition range (n : Z) : list Z := map Z.of_nat (seq 0 (Z.to_nat n)).

Definition first_some {A B} (f : A → option B) (l : list A) : option B :=
  foldr (λ x rest, match f x with Some y => Some y | None => rest end) None l.

Definition make_random_move (self : AI) : option cell :=
  first_some (λ i,
    first_some (λ j,
      if bool_decide (((i, j) ∉ moves_made self) ∧ ((i, j) ∉ mines self))
      then Some (i, j) else None)
      (range (width self)))
    (range (height self)).

(** A sequence of [add_knowledge] calls. *)
Definition observe_all (self : AI) (calls : list (cell * Z)) : AI :=
  foldl (λ ai call, add_knowledge ai (fst call) (snd call)) self calls.

(** [make_safe_move]: the first member of [safes], in the order the set is
    visited, that is not in [moves_made]; [None] is Python's [None]. *)
Definition make_safe_move (self : AI) : option cell :=
  first_some (λ safe, if bool_decide (safe ∉ moves_made self)
                      then Some safe else None)
             (elements (safes self)).

End MinesweeperAI.

Abbreviation AI := MinesweeperAI.AI.

(** ** class Minesweeper *)

Module Minesweeper.

Record Board := mk {
  height : Z;
  width : Z;
  mines : gset cell;
  board : list (list bool);
  mines_found : gset cell
}.

(** Python's [l[i]]: a negative index counts from the end, an index out
    of range raises [IndexError] ([None]). *)
Definition getitem {A} (l : list A) (i : Z) : option A :=
  if bool_decide (0 ≤ i) then l !! Z.to_nat i
  else if bool_decide (0 ≤ Z.of_nat (length l) + i)
       then l !! Z.to_nat (Z.of_nat (length l) + i)
       else None.

(** [range(lo, hi)] *)
Definition range (lo hi : Z) : list Z :=
  map (λ k, lo + Z.of_nat k) (seq 0 (Z.to_nat (hi - lo))).

Definition is_mine (self : Board) (c : cell) : option bool :=
  row ← getitem (board self) (fst c); getitem row (snd c).

(** [nearby_mines]; [None] when an index is out of range. *)
Definition nearby_mines (self : Board) (c : cell) : option Z :=
  foldl (λ acc i,
    foldl (λ acc j,
      count ← acc;
      if bool_decide ((i, j) = c) then Some count
      else if bool_decide (0 ≤ i < height self ∧ 0 ≤ j < width self) then
        row ← getitem (board self) i;
        x ← getitem row j;
        Some (if x : bool then count + 1 else count)
      else Some count)
    acc (range (snd c - 1) (snd c + 2)))
  (Some 0) (range (fst c - 1) (fst c + 2)).

(** What a run of [__init__] has come to. *)
Inductive outcome :=
| Running (self : Board)   (* the draws are used up and the loop goes on *)
| Returned (self : Board)  (* the loop was left *)
| ValueError               (* [random.randrange] of an empty range *)
| IndexError.

(** [random.randrange(n)]: every value of [0 .. n-1] can come out, the
    raw draw [r] picks it; an empty range raises [ValueError]. *)
Definition randrange (n r : Z) : option Z :=
  if bool_decide (0 < n) then Some (r `mod` n) else None.

(** The loop "Add mines randomly", run on a list of raw draws. *)
Fixpoint add_mines (requested : Z) (draws : list (Z * Z)) (self : Board)
  : outcome :=
  if bool_decide (Z.of_nat (size (mines self)) ≠ requested) then
    match draws with
    | [] => Running self
    | (r1, r2) :: draws =>
      match randrange (height self) r1 with
      | None => ValueError
      | Some i =>
        match randrange (width self) r2 with
        | None => ValueError
        | Some j =>
          match getitem (board self) i with
          | None => IndexError
          | Some row =>
            match getitem row j with
            | None => IndexError
            | Some true => add_mines requested draws self
            | Some false =>
              add_mines requested draws
                (mk (height self) (width self) (mines self ∪ {[(i, j)]})
                    (<[Z.to_nat i := <[Z.to_nat j := true]> row]> (board self))
                    (mines_found self))
            end
          end
        end
      end
    end
  else Returned self.

(** [__init__] up to the end of the loop ([mines_found] is set after it). *)
Definition init (h w requested : Z) (draws : list (Z * Z)) : outcome :=
  add_mines requested draws
    (mk h w ∅ (replicate (Z.to_nat h) (replicate (Z.to_nat w) false)) ∅).

(** [won] *)
Definition won (self : Board) : bool :=
  bool_decide (mines_found self = mines self).

End Minesweeper.

Abbreviation Board := Minesweeper.Board.

(** * Vocabulary of the specification *)

(** A cell that [make_random_move] may return. *)
Definition free (self : AI) (c : cell) : Prop :=
  c ∉ MinesweeperAI.moves_made self ∧ c ∉ MinesweeperAI.mines self.

(** The shape [__init__] gives to [board]: [height] rows of [width] entries. *)
Definition well_formed (self : Board) : Prop :=
  length (Minesweeper.board self) = Z.to_nat (Minesweeper.height self)
  ∧ Forall (λ row, length row = Z.to_nat (Minesweeper.width self))
           (Minesweeper.board self).

Definition on_grid (self : Board) : Prop :=
  ∀ c, c ∈ Minesweeper.mines self →
       0 ≤ c.1 < Minesweeper.height self ∧ 0 ≤ c.2 < Minesweeper.width self.

Definition inside (b : Board) (c : cell) : Prop :=
  0 ≤ c.1 < Minesweeper.height b ∧ 0 ≤ c.2 < Minesweeper.width b.

(** [c] is a cell of the grid and [is_mine] answers [True] for it. *)
Definition mine_at (b : Board) (c : cell) : bool :=
  bool_decide (inside b c)
  && match Minesweeper.is_mine b c with Some true => true | _ => false end.

(** The number of mines of the board among the cells of a set. *)
Definition mines_among (b : Board) (X : gset cell) : nat :=
  size (filter (λ c, mine_at b c = true) X).

(** A sentence is true of the board. *)
Definition holds (b : Board) (s : Sentence) : Prop :=
  Sentence.count s = Z.of_nat (mines_among b (Sentence.cells s)).

(** What the player knows is true of the board. *)
Definition sound (b : Board) (self : AI) : Prop :=
  MinesweeperAI.height self = Minesweeper.height b
  ∧ MinesweeperAI.width self = Minesweeper.width b
  ∧ (∀ c, c ∈ MinesweeperAI.mines self → mine_at b c = true)
  ∧ (∀ c, c ∈ MinesweeperAI.safes self → mine_at b c = false)
  ∧ (∀ s, s ∈ MinesweeperAI.knowledge self → holds b s).

(** The contract of [add_knowledge]: the cell is a revealed cell of the
    board, hence on the grid and not a mine, and the count is the one the
    board gives for it. *)
Definition truthful (b : Board) (call : cell * Z) : Prop :=
  inside b call.1
  ∧ Minesweeper.is_mine b call.1 = Some false
  ∧ Minesweeper.nearby_mines b call.1 = Some call.2.

(** The eight cells around a cell, in the order [nearby_mines] visits them. *)
Definition around (c : cell) : list cell :=
  [(c.1 - 1, c.2 - 1); (c.1 - 1, c.2); (c.1 - 1, c.2 + 1);
   (c.1, c.2 - 1); (c.1, c.2 + 1);
   (c.1 + 1, c.2 - 1); (c.1 + 1, c.2); (c.1 + 1, c.2 + 1)].

Definition bit (x : bool) : Z := if x then 1 else 0.

Definition tally (b : Board) (l : list cell) : Z :=
  foldr (λ c acc, bit (mine_at b c) + acc) 0 l.

(** The cells that all sentences of [knowledge] hold, counted with repeats. *)
Definition total_cells (k : list Sentence) : nat :=
  foldr (λ s acc, (size (Sentence.cells s) + acc)%nat) 0%nat k.

(** The flags of [board] and the set [mines] name the same cells. *)
Definition board_matches (self : Board) : Prop :=
  ∀ c, c ∈ Minesweeper.mines self ↔ mine_at self c = true.

(** The cells of the grid in row-major order. *)
Definition grid_cells (h w : Z) : list cell :=
  map (λ p : nat * nat, (Z.of_nat p.1, Z.of_nat p.2))
      (list_prod (seq 0 (Z.to_nat h)) (seq 0 (Z.to_nat w))).

(** What one deduction pass finds: the cells of sentences with count 0
    that are not yet in [safes], and the cells of sentences whose count is
    the number of their cells that are not yet in [mines]. *)
Definition new_safes (self : AI) : gset cell :=
  ⋃ (Sentence.known_safes <$> MinesweeperAI.knowledge self)
  ∖ MinesweeperAI.safes self.

Definition new_mines (self : AI) : gset cell :=
  ⋃ (Sentence.known_mines <$> MinesweeperAI.knowledge self)
  ∖ MinesweeperAI.mines self.

(** A sentence after the cells [S] were marked safe and then the cells [M]
    were marked as mines. *)
Definition reduced (S M : gset cell) (s : Sentence) : Sentence :=
  Sentence.mk (Sentence.cells s ∖ (S ∪ M))
              (Sentence.count s - Z.of_nat (size ((Sentence.cells s ∖ S) ∩ M))).

(** All the cells the player holds are cells of the grid. *)
Definition on_board (b : Board) (self : AI) : Prop :=
  (∀ c, c ∈ MinesweeperAI.safes self → inside b c)
  ∧ (∀ s c, s ∈ MinesweeperAI.knowledge self → c ∈ Sentence.cells s → inside b c).

(** [k'] keeps the sentences of [k] at their places, each with no more
    cells and no greater count. *)
Definition shrunk (k k' : list Sentence) : Prop :=
  ∀ (i : nat) s, k !! i = Some s →
    ∃ s', k' !! i = Some s'
          ∧ Sentence.cells s' ⊆ Sentence.cells s
          ∧ Sentence.count s' ≤ Sentence.count s.

(** [mark_cells] with the order in which a set is visited left open:
    [visit X] is the list a [for] loop over the set [X] goes through. *)
Definition collect_in (known : gset cell) (acc : list cell) (l : list cell)
  : list cell :=
  foldl (λ acc c,
           if bool_decide ((c ∉ acc) ∧ (c ∉ known)) then acc ++ [c] else acc)
        acc l.

Definition scan_in (visit : gset cell → list cell) (self : AI)
  : list cell * list cell :=
  foldl (λ lists sentence,
           (collect_in (MinesweeperAI.safes self) (fst lists)
              (visit (Sentence.known_safes sentence)),
            collect_in (MinesweeperAI.mines self) (snd lists)
              (visit (Sentence.known_mines sentence))))
        ([], []) (MinesweeperAI.knowledge self).

Definition mark_cells_in (visit : gset cell → list cell) (self : AI) : AI :=
  let lists := scan_in visit self in
  foldl MinesweeperAI.mark_mine (foldl MinesweeperAI.mark_safe self (fst lists))
        (snd lists).

(** Boards used in the examples below: the mines are the [true] entries. *)
Definition board_1x2 : Board :=
  Minesweeper.mk 1 2 {[(0, 1)]} [[false; true]] ∅.

Definition board_1x3 : Board :=
  Minesweeper.mk 1 3 {[(0, 2)]} [[false; false; true]] ∅.

Definition board_2x3 : Board :=
  Minesweeper.mk 2 3 {[(0, 0); (0, 2)]}
    [[true; false; true]; [false; false; false]] ∅.

Definition board_3x3 : Board :=
  Minesweeper.mk 3 3 {[(0, 2); (1, 1); (1, 2); (2, 2)]}
    [[false; false; true]; [false; true; true]; [false; false; true]] ∅.

(** * Properties *)

(** ** Sentences *)

Section sentence_facts.
Implicit Types (s : Sentence) (c : cell).

Lemma mark_mine_cells s c :
  Sentence.cells (Sentence.mark_mine s c).2 = Sentence.cells s ∖ {[c]}.
Proof.
  unfold Sentence.mark_mine. destruct (bool_decide_reflect (c ∈ Sentence.cells s)); simpl; set_solver.
Qed.

Lemma mark_safe_cells s c :
  Sentence.cells (Sentence.mark_safe s c).2 = Sentence.cells s ∖ {[c]}.
Proof.
  unfold Sentence.mark_safe. destruct (bool_decide_reflect (c ∈ Sentence.cells s)); simpl; set_solver.
Qed.

Lemma mark_safe_count s c :
  Sentence.count (Sentence.mark_safe s c).2 = Sentence.count s.
Proof. unfold Sentence.mark_safe. by case_bool_decide. Qed.

Lemma known_mines_subseteq s : Sentence.known_mines s ⊆ Sentence.cells s.
Proof. unfold Sentence.known_mines. case_bool_decide; set_solver. Qed.

Lemma known_safes_subseteq s : Sentence.known_safes s ⊆ Sentence.cells s.
Proof. unfold Sentence.known_safes. case_bool_decide; set_solver. Qed.
End sentence_facts.

(** C8: [known_mines] is the whole cell set when the count equals the
    number of cells and the empty set otherwise; [known_safes] is the whole
    cell set when the count is 0 and the empty set otherwise.  Both are
    functions of the sentence that return a set only: the sentence itself
    is not part of what they return, it is left as it was. *)
Theorem known_cells_exact (s : Sentence) :
  (Sentence.count s = Z.of_nat (size (Sentence.cells s)) →
     Sentence.known_mines s = Sentence.cells s)
  ∧ (Sentence.count s ≠ Z.of_nat (size (Sentence.cells s)) →
     Sentence.known_mines s = ∅)
  ∧ (Sentence.count s = 0 → Sentence.known_safes s = Sentence.cells s)
  ∧ (Sentence.count s ≠ 0 → Sentence.known_safes s = ∅).
Proof.
  unfold Sentence.known_mines, Sentence.known_safes.
  repeat split; intros Hc; case_bool_decide; congruence.
Qed.

Lemma known_cells_exact_witness :
  Sentence.known_mines (Sentence.mk {[(0, 1); (1, 1)]} 2) = {[(0, 1); (1, 1)]}
  ∧ Sentence.known_mines (Sentence.mk {[(0, 1); (1, 1)]} 1) = ∅
  ∧ Sentence.known_safes (Sentence.mk {[(0, 1); (1, 1)]} 0) = {[(0, 1); (1, 1)]}
  ∧ Sentence.known_safes (Sentence.mk {[(0, 1); (1, 1)]} 1) = ∅.
Proof.
  split; [|split; [|split]].
  - destruct (known_cells_exact (Sentence.mk {[(0, 1); (1, 1)]} 2)) as (H & _).
    apply H. reflexivity.
  - destruct (known_cells_exact (Sentence.mk {[(0, 1); (1, 1)]} 1)) as (_ & H & _).
    apply H. vm_compute. discriminate.
  - destruct (known_cells_exact (Sentence.mk {[(0, 1); (1, 1)]} 0)) as (_ & _ & H & _).
    apply H. reflexivity.
  - destruct (known_cells_exact (Sentence.mk {[(0, 1); (1, 1)]} 1)) as (_ & _ & _ & H).
    apply H. vm_compute. discriminate.
Defined.

(** ** The deduction pass [mark_cells] *)

Section mark_cells_facts.
Implicit Types (self : AI) (c : cell) (l : list cell) (X : gset cell).

Lemma collect_spec known acc found c :
  c ∈ MinesweeperAI.collect known acc found ↔
  c ∈ acc ∨ (c ∈ found ∧ c ∉ known).
Proof.
  unfold MinesweeperAI.collect.
  rewrite <- (elem_of_elements found c).
  generalize (elements found) as l. intros l. revert acc.
  induction l as [|x l IH]; intros acc; simpl.
  - rewrite elem_of_nil. tauto.
  - rewrite IH, elem_of_cons. case_bool_decide as Hx.
    + rewrite elem_of_app, list_elem_of_singleton.
      split; [intros [[?| ->]|?]|intros [?|[[->|?] ?]]]; tauto.
    + split; [tauto|]. intros [?|[[->|?] ?]]; [tauto| |tauto].
      destruct (decide (x ∈ acc)); tauto.
Qed.

Lemma scan_from_spec self (k : list Sentence) (lists : list cell * list cell) :
  let r :=
    foldl (λ lists sentence,
             (MinesweeperAI.collect (MinesweeperAI.safes self) lists.1
                (Sentence.known_safes sentence),
              MinesweeperAI.collect (MinesweeperAI.mines self) lists.2
                (Sentence.known_mines sentence)))
          lists k in
  (∀ c, c ∈ r.1 ↔ c ∈ lists.1 ∨
          (c ∉ MinesweeperAI.safes self ∧ ∃ s, s ∈ k ∧ c ∈ Sentence.known_safes s))
  ∧ (∀ c, c ∈ r.2 ↔ c ∈ lists.2 ∨
          (c ∉ MinesweeperAI.mines self ∧ ∃ s, s ∈ k ∧ c ∈ Sentence.known_mines s)).
Proof.
  revert lists. induction k as [|s k IH]; intros lists; simpl.
  - split; intros c; split; [tauto| |tauto|];
      intros [?|[_ [s [Hs _]]]]; try done; by apply elem_of_nil in Hs.
  - destruct (IH (MinesweeperAI.collect (MinesweeperAI.safes self) lists.1
                    (Sentence.known_safes s),
                  MinesweeperAI.collect (MinesweeperAI.mines self) lists.2
                    (Sentence.known_mines s))) as [IH1 IH2].
    split; intros c; [rewrite IH1|rewrite IH2]; simpl;
      rewrite collect_spec; setoid_rewrite elem_of_cons; naive_solver.
Qed.

Lemma scan_safes self c :
  c ∈ (MinesweeperAI.scan self).1 ↔
  c ∉ MinesweeperAI.safes self
  ∧ ∃ s, s ∈ MinesweeperAI.knowledge self ∧ c ∈ Sentence.known_safes s.
Proof.
  unfold MinesweeperAI.scan.
  destruct (scan_from_spec self (MinesweeperAI.knowledge self) ([], [])) as [H _].
  rewrite H. simpl. rewrite elem_of_nil. tauto.
Qed.

Lemma scan_mines self c :
  c ∈ (MinesweeperAI.scan self).2 ↔
  c ∉ MinesweeperAI.mines self
  ∧ ∃ s, s ∈ MinesweeperAI.knowledge self ∧ c ∈ Sentence.known_mines s.
Proof.
  unfold MinesweeperAI.scan.
  destruct (scan_from_spec self (MinesweeperAI.knowledge self) ([], [])) as [_ H].
  rewrite H. simpl. rewrite elem_of_nil. tauto.
Qed.

Lemma mark_safe_all_sets self l :
  MinesweeperAI.safes (foldl MinesweeperAI.mark_safe self l)
    = MinesweeperAI.safes self ∪ list_to_set l
  ∧ MinesweeperAI.mines (foldl MinesweeperAI.mark_safe self l)
    = MinesweeperAI.mines self.
Proof.
  revert self. induction l as [|x l IH]; intros self; simpl.
  - split; [set_solver|done].
  - destruct (IH (MinesweeperAI.mark_safe self x)) as [-> ->]. simpl.
    split; [set_solver|done].
Qed.

Lemma mark_mine_all_sets self l :
  MinesweeperAI.safes (foldl MinesweeperAI.mark_mine self l)
    = MinesweeperAI.safes self
  ∧ MinesweeperAI.mines (foldl MinesweeperAI.mark_mine self l)
    = MinesweeperAI.mines self ∪ list_to_set l.
Proof.
  revert self. induction l as [|x l IH]; intros self; simpl.
  - split; [done|set_solver].
  - destruct (IH (MinesweeperAI.mark_mine self x)) as [-> ->]. simpl.
    split; [done|set_solver].
Qed.

Lemma mark_cells_safes self c :
  c ∈ MinesweeperAI.safes (MinesweeperAI.mark_cells self) ↔
  c ∈ MinesweeperAI.safes self
  ∨ ∃ s, s ∈ MinesweeperAI.knowledge self ∧ c ∈ Sentence.known_safes s.
Proof.
  unfold MinesweeperAI.mark_cells. simpl.
  rewrite (proj1 (mark_mine_all_sets _ _)), (proj1 (mark_safe_all_sets _ _)).
  rewrite elem_of_union, elem_of_list_to_set, scan_safes.
  destruct (decide (c ∈ MinesweeperAI.safes self)); tauto.
Qed.

Lemma mark_cells_mines self c :
  c ∈ MinesweeperAI.mines (MinesweeperAI.mark_cells self) ↔
  c ∈ MinesweeperAI.mines self
  ∨ ∃ s, s ∈ MinesweeperAI.knowledge self ∧ c ∈ Sentence.known_mines s.
Proof.
  unfold MinesweeperAI.mark_cells. simpl.
  rewrite (proj2 (mark_mine_all_sets _ _)), (proj2 (mark_safe_all_sets _ _)).
  rewrite elem_of_union, elem_of_list_to_set, scan_mines.
  destruct (decide (c ∈ MinesweeperAI.mines self)); tauto.
Qed.
End mark_cells_facts.

(** ** The resolution pass *)

Section resolution.
Implicit Types (k : list Sentence) (s A B : Sentence).

Lemma infer_spec k A B s :
  s ∈ MinesweeperAI.infer k A B ↔
  A ≠ B ∧ Sentence.cells A ⊆ Sentence.cells B
  ∧ s = Sentence.mk (Sentence.cells B ∖ Sentence.cells A)
                    (Sentence.count B - Sentence.count A)
  ∧ Sentence.cells s ≠ ∅ ∧ 0 ≤ Sentence.count s ∧ s ∉ k.
Proof.
  unfold MinesweeperAI.infer.
  assert (Hsz : ∀ X : gset cell, Z.of_nat (size X) > 0 ↔ X ≠ ∅).
  { intros X. rewrite <- (leibniz_equiv_iff X ∅), <- size_non_empty_iff. lia. }
  repeat case_bool_decide;
    rewrite ?list_elem_of_singleton, ?elem_of_nil;
    (split; [intros Hs | intros (HAB & Hsub & -> & Hne & Hc & Hk)]);
    simpl in *; try rewrite <- Hsz in Hne; try tauto; try lia.
  subst s. simpl. rewrite <- Hsz. intuition lia.
Qed.

Lemma new_sentences_spec k s :
  s ∈ MinesweeperAI.new_sentences k ↔
  ∃ A B, A ∈ k ∧ B ∈ k ∧ A ≠ B
         ∧ Sentence.cells A ⊆ Sentence.cells B
         ∧ s = Sentence.mk (Sentence.cells B ∖ Sentence.cells A)
                           (Sentence.count B - Sentence.count A)
         ∧ Sentence.cells s ≠ ∅ ∧ 0 ≤ Sentence.count s ∧ s ∉ k.
Proof.
  unfold MinesweeperAI.new_sentences.
  rewrite list_elem_of_In, in_flat_map. split.
  - intros (A & HA & Hs). apply in_flat_map in Hs as (B & HB & Hs).
    apply list_elem_of_In in HA, HB, Hs. apply infer_spec in Hs.
    exists A, B. tauto.
  - intros (A & B & HA & HB & Hs). exists A.
    split; [by apply list_elem_of_In|].
    apply in_flat_map. exists B.
    split; [by apply list_elem_of_In|].
    apply list_elem_of_In, infer_spec. tauto.
Qed.

Lemma infer_same k A : MinesweeperAI.infer k A A = [].
Proof.
  unfold MinesweeperAI.infer. by rewrite bool_decide_eq_false_2 by tauto.
Qed.

Lemma infer_not_subset k A B :
  Sentence.cells A ⊈ Sentence.cells B → MinesweeperAI.infer k A B = [].
Proof.
  intros Hn. unfold MinesweeperAI.infer.
  rewrite (bool_decide_eq_false_2 _ Hn). by case_bool_decide.
Qed.

Lemma infer_derive k A B :
  A ≠ B → Sentence.cells A ⊆ Sentence.cells B →
  Sentence.cells B ∖ Sentence.cells A ≠ ∅ →
  0 ≤ Sentence.count B - Sentence.count A →
  Sentence.mk (Sentence.cells B ∖ Sentence.cells A)
              (Sentence.count B - Sentence.count A) ∉ k →
  MinesweeperAI.infer k A B
    = [Sentence.mk (Sentence.cells B ∖ Sentence.cells A)
                   (Sentence.count B - Sentence.count A)].
Proof.
  intros HAB Hsub Hne Hc Hk.
  pose proof (infer_spec k A B
    (Sentence.mk (Sentence.cells B ∖ Sentence.cells A)
                 (Sentence.count B - Sentence.count A))) as [_ H].
  unfold MinesweeperAI.infer in *.
  repeat case_bool_decide; try done; exfalso;
    (eapply elem_of_nil, H; simpl; tauto).
Qed.
End resolution.

(** ** Move selection *)

Section first_free.
Context {B : Type}.
Implicit Types (f : Z → option B).

Lemma first_some_seq f (a m : nat) :
  (∀ y, MinesweeperAI.first_some f (map Z.of_nat (seq a m)) = Some y ↔
        ∃ x : nat, (a ≤ x < a + m)%nat ∧ f (Z.of_nat x) = Some y
                   ∧ ∀ x' : nat, (a ≤ x' < x)%nat → f (Z.of_nat x') = None)
  ∧ (MinesweeperAI.first_some f (map Z.of_nat (seq a m)) = None ↔
     ∀ x : nat, (a ≤ x < a + m)%nat → f (Z.of_nat x) = None).
Proof.
  revert a. induction m as [|m IH]; intros a; simpl.
  - split; [intros y; split; [done|intros (x & ? & _); lia]|].
    split; [intros _ x ?; lia|done].
  - destruct (IH (S a)) as [IHs IHn]. destruct (f (Z.of_nat a)) as [y0|] eqn:Ha.
    + split.
      * intros y. split.
        -- intros [= <-]. exists a. repeat split; [lia|lia|done|intros; lia].
        -- intros (x & Hx & Hfx & Hlt). destruct (decide (x = a)) as [->|Hne].
           ++ congruence.
           ++ rewrite Hlt in Ha by lia. done.
      * split; [done|]. intros H. rewrite H in Ha by lia. done.
    + split.
      * intros y. rewrite IHs. split.
        -- intros (x & Hx & Hfx & Hlt). exists x. repeat split; [lia|lia|done|].
           intros x' Hx'. destruct (decide (x' = a)) as [->|Hne]; [done|].
           apply Hlt. lia.
        -- intros (x & Hx & Hfx & Hlt). exists x.
           assert (x ≠ a) by congruence.
           repeat split; [lia|lia|done|]. intros x' Hx'. apply Hlt. lia.
      * rewrite IHn. split; intros H x Hx.
        -- destruct (decide (x = a)) as [->|Hne]; [done|]. apply H. lia.
        -- apply H. lia.
Qed.

Lemma first_some_range f (n : Z) (y : B) :
  MinesweeperAI.first_some f (MinesweeperAI.range n) = Some y ↔
  ∃ x, 0 ≤ x < n ∧ f x = Some y ∧ ∀ x', 0 ≤ x' < x → f x' = None.
Proof.
  unfold MinesweeperAI.range.
  destruct (first_some_seq f 0 (Z.to_nat n)) as [H _]. rewrite H. split.
  - intros (x & Hx & Hfx & Hlt). exists (Z.of_nat x).
    repeat split; [lia|lia|done|]. intros x' Hx'.
    rewrite <- (Z2Nat.id x') by lia. apply Hlt. lia.
  - intros (x & Hx & Hfx & Hlt). exists (Z.to_nat x).
    rewrite Z2Nat.id by lia. repeat split; [lia|lia|done|].
    intros x' Hx'. apply Hlt. lia.
Qed.

Lemma first_some_range_None f (n : Z) :
  MinesweeperAI.first_some f (MinesweeperAI.range n) = None ↔
  ∀ x, 0 ≤ x < n → f x = None.
Proof.
  unfold MinesweeperAI.range.
  destruct (first_some_seq f 0 (Z.to_nat n)) as [_ H]. rewrite H. split.
  - intros Hn x Hx. rewrite <- (Z2Nat.id x) by lia. apply Hn. lia.
  - intros Hn x Hx. apply Hn. lia.
Qed.
End first_free.

(** C9: [make_random_move] draws nothing at random.  It returns the cell
    [(i, j)] exactly when that cell is on the grid, is neither in
    [moves_made] nor in [mines], and every grid cell before it in row-major
    order is in [moves_made] or in [mines]; it returns [None] exactly when
    every grid cell is in [moves_made] or in [mines].  It is a function of
    the state that returns a cell only, so the state is left as it was. *)
Theorem make_random_move_first (self : AI) :
  (∀ i j,
     MinesweeperAI.make_random_move self = Some (i, j) ↔
     0 ≤ i < MinesweeperAI.height self ∧ 0 ≤ j < MinesweeperAI.width self
     ∧ free self (i, j)
     ∧ ∀ i' j', 0 ≤ i' < MinesweeperAI.height self →
                0 ≤ j' < MinesweeperAI.width self →
                i' < i ∨ (i' = i ∧ j' < j) → ¬ free self (i', j'))
  ∧ (MinesweeperAI.make_random_move self = None ↔
     ∀ i j, 0 ≤ i < MinesweeperAI.height self →
            0 ≤ j < MinesweeperAI.width self →
            (i, j) ∈ MinesweeperAI.moves_made self
            ∨ (i, j) ∈ MinesweeperAI.mines self).
Proof.
  unfold MinesweeperAI.make_random_move, free.
  set (pick := λ i j : Z,
         if bool_decide ((i, j) ∉ MinesweeperAI.moves_made self
                         ∧ (i, j) ∉ MinesweeperAI.mines self)
         then Some (i, j) else None).
  assert (Hpick : ∀ i j c, pick i j = Some c ↔
            c = (i, j) ∧ (i, j) ∉ MinesweeperAI.moves_made self
            ∧ (i, j) ∉ MinesweeperAI.mines self).
  { intros i j c. unfold pick. case_bool_decide; naive_solver. }
  assert (Hnone : ∀ i j, pick i j = None ↔
            ¬ ((i, j) ∉ MinesweeperAI.moves_made self
               ∧ (i, j) ∉ MinesweeperAI.mines self)).
  { intros i j. unfold pick. case_bool_decide; naive_solver. }
  split.
  - intros i j. rewrite first_some_range. split.
    + intros (x & Hx & Hrow & Hbefore).
      apply first_some_range in Hrow as (y & Hy & Hp & Hleft).
      apply Hpick in Hp as ([= -> ->] & Hfree).
      repeat split; try lia; try tauto.
      intros i' j' Hi' Hj' [Hlt | [-> Hlt]].
      * specialize (Hbefore i' ltac:(lia)).
        rewrite first_some_range_None in Hbefore. by apply Hnone, Hbefore.
      * apply Hnone, Hleft. lia.
    + intros (Hi & Hj & Hfree & Hbefore). exists i. split; [done|]. split.
      * apply first_some_range. exists j. split; [done|]. split.
        -- by apply Hpick.
        -- intros j' Hj'. apply Hnone, Hbefore; [done|lia|right; lia].
      * intros i' Hi'. apply first_some_range_None. intros j' Hj'.
        apply Hnone, Hbefore; [lia|done|left; lia].
  - rewrite first_some_range_None. split.
    + intros H i j Hi Hj. specialize (H i Hi).
      rewrite first_some_range_None in H. specialize (H j Hj).
      apply Hnone in H.
      destruct (decide ((i, j) ∈ MinesweeperAI.moves_made self)); [tauto|].
      destruct (decide ((i, j) ∈ MinesweeperAI.mines self)); tauto.
    + intros H i Hi. apply first_some_range_None. intros j Hj.
      apply Hnone. specialize (H i j Hi Hj). tauto.
Qed.

Lemma make_random_move_first_witness :
  MinesweeperAI.make_random_move
    (MinesweeperAI.mk 2 2 {[(0, 0)]} {[(0, 1)]} {[(0, 0)]} []) = Some (1, 0).
Proof.
  destruct (make_random_move_first
              (MinesweeperAI.mk 2 2 {[(0, 0)]} {[(0, 1)]} {[(0, 0)]} []))
    as [H _].
  apply H. simpl. split; [lia|]. split; [lia|]. split.
  - split; compute_done.
  - intros i' j' Hi' Hj' Hlt [Hm Hn].
    assert (i' = 0) as -> by lia.
    assert (j' = 0 ∨ j' = 1) as [-> | ->] by lia.
    + apply Hm. compute_done.
    + apply Hn. compute_done.
Defined.

(** ** Board construction *)

Section placement.
Implicit Types (self : Board) (X : gset cell).

(** The grid has [height * width] cells, so a set of grid cells has no
    more members than that. *)
Lemma size_on_grid X (h w : Z) :
  0 ≤ h → 0 ≤ w →
  (∀ c, c ∈ X → 0 ≤ c.1 < h ∧ 0 ≤ c.2 < w) →
  Z.of_nat (size X) ≤ h * w.
Proof.
  intros Hh Hw HX.
  set (L := map (λ p : nat * nat, (Z.of_nat p.1, Z.of_nat p.2))
                (list_prod (seq 0 (Z.to_nat h)) (seq 0 (Z.to_nat w)))).
  assert (Hlen : length L = (Z.to_nat h * Z.to_nat w)%nat).
  { unfold L. by rewrite length_map, length_prod, !length_seq. }
  assert (Hsub : elements X ⊆+ L).
  { apply NoDup_submseteq; [apply NoDup_elements|].
    intros [i j] Hc. apply elem_of_elements, HX in Hc. simpl in Hc.
    unfold L. apply list_elem_of_fmap.
    exists (Z.to_nat i, Z.to_nat j). simpl. split; [f_equal; lia|].
    apply list_elem_of_In, in_prod; apply in_seq; lia. }
  apply submseteq_length in Hsub. unfold size, set_size. simpl.
  rewrite <- (Z2Nat.id h), <- (Z2Nat.id w) by done. lia.
Qed.

Lemma getitem_inside {A} (l : list A) (i : Z) :
  0 ≤ i < Z.of_nat (length l) →
  ∃ x, Minesweeper.getitem l i = Some x ∧ l !! Z.to_nat i = Some x.
Proof.
  intros Hi. unfold Minesweeper.getitem.
  rewrite bool_decide_eq_true_2 by lia.
  destruct (lookup_lt_is_Some_2 l (Z.to_nat i)) as [x Hx]; [lia|]. eauto.
Qed.

Lemma add_mines_runs requested (draws : list (Z * Z)) self :
  well_formed self → on_grid self →
  1 ≤ Minesweeper.height self → 1 ≤ Minesweeper.width self →
  Minesweeper.height self * Minesweeper.width self < requested →
  ∃ self', Minesweeper.add_mines requested draws self = Minesweeper.Running self'
           ∧ Z.of_nat (size (Minesweeper.mines self'))
             ≤ Minesweeper.height self * Minesweeper.width self.
Proof.
  revert self. induction draws as [|[r1 r2] draws IH];
    intros self [Hrows Hcols] Hgrid Hh Hw Hreq;
    pose proof (size_on_grid (Minesweeper.mines self) (Minesweeper.height self)
                  (Minesweeper.width self) ltac:(lia) ltac:(lia) Hgrid) as Hsize;
    simpl;
    rewrite bool_decide_eq_true_2 by lia.
  - eauto.
  - unfold Minesweeper.randrange. rewrite !bool_decide_eq_true_2 by lia.
    pose proof (Z.mod_pos_bound r1 (Minesweeper.height self) ltac:(lia)) as Hi.
    pose proof (Z.mod_pos_bound r2 (Minesweeper.width self) ltac:(lia)) as Hj.
    destruct (getitem_inside (Minesweeper.board self)
                (r1 `mod` Minesweeper.height self)) as (row & -> & Hrow);
      [lia|].
    assert (Hlen : length row = Z.to_nat (Minesweeper.width self)).
    { eapply Forall_lookup_1 in Hcols; [exact Hcols|exact Hrow]. }
    destruct (getitem_inside row (r2 `mod` Minesweeper.width self))
      as (x & -> & _); [lia|].
    destruct x.
    + apply IH; done.
    + match goal with
      | |- ∃ s, Minesweeper.add_mines _ _ ?b = _ ∧ _ =>
          destruct (IH b) as (self' & Hrun & Hle)
      end; simpl; try done.
      * split; simpl.
        -- by rewrite length_insert.
        -- apply Forall_insert; [done|]. by rewrite length_insert.
      * intros c [Hc| ->%elem_of_singleton]%elem_of_union; [by apply Hgrid|].
        simpl. lia.
      * eauto.
Qed.
End placement.

(** C10, as the code has it: when [height >= 1], [width >= 1] and the
    requested number of mines is greater than [height * width], the loop
    that places the mines is still running after any number of draws,
    whatever they are: [self.mines] never holds more than [height * width]
    cells, so its size never equals the requested number. *)
Theorem placement_never_ends (h w requested : Z) (draws : list (Z * Z)) :
  1 ≤ h → 1 ≤ w → h * w < requested →
  ∃ self, Minesweeper.init h w requested draws = Minesweeper.Running self
          ∧ Z.of_nat (size (Minesweeper.mines self)) ≤ h * w.
Proof.
  intros Hh Hw Hreq. unfold Minesweeper.init.
  match goal with
  | |- ∃ s, Minesweeper.add_mines _ _ ?b = _ ∧ _ =>
      apply (add_mines_runs requested draws b)
  end; simpl; try done.
  split; simpl.
  - by rewrite length_replicate.
  - apply Forall_replicate. by rewrite length_replicate.
Qed.

Lemma placement_never_ends_witness :
  ∃ self, Minesweeper.init 1 2 3 [(0, 0); (0, 1); (0, 1); (5, 7)]
          = Minesweeper.Running self
          ∧ Z.of_nat (size (Minesweeper.mines self)) ≤ 1 * 2.
Proof.
  apply (placement_never_ends 1 2 3 [(0, 0); (0, 1); (0, 1); (5, 7)]); lia.
Defined.

(** C10 as stated fails where the grid is empty: with [height = 0] the
    first draw raises [ValueError], and with a negative [height] and no
    mine requested the loop is left at once. *)
Lemma placement_ends_on_empty_grid :
  (0 * 3 < 1 ∧ Minesweeper.init 0 3 1 [(0, 0)] = Minesweeper.ValueError)
  ∧ (-1 * 1 < 0
     ∧ Minesweeper.init (-1) 1 0 [(0, 0)]
       = Minesweeper.Returned (Minesweeper.mk (-1) 1 ∅ [] ∅)).
Proof. split; (split; [lia|reflexivity]). Qed.

(** ** Sentences that are true of a board *)

Section truth.
Context (b : Board).
Implicit Types (s : Sentence) (c : cell) (X Y : gset cell) (self : AI).

Lemma mines_among_le X : (mines_among b X ≤ size X)%nat.
Proof. unfold mines_among. apply subseteq_size. set_solver. Qed.

Lemma mines_among_remove_mine X c :
  mine_at b c = true → c ∈ X →
  mines_among b (X ∖ {[c]}) = (mines_among b X - 1)%nat.
Proof.
  intros Hm Hc. unfold mines_among.
  replace (filter (λ c, mine_at b c = true) (X ∖ {[c]}))
    with (filter (λ c, mine_at b c = true) X ∖ {[c]}) by set_solver.
  rewrite size_difference by set_solver. by rewrite size_singleton.
Qed.

Lemma mines_among_pos X c :
  mine_at b c = true → c ∈ X → (1 ≤ mines_among b X)%nat.
Proof.
  intros Hm Hc. unfold mines_among.
  rewrite <- (size_singleton (C:=gset cell) c). apply subseteq_size. set_solver.
Qed.

Lemma mines_among_remove_safe X c :
  mine_at b c = false → mines_among b (X ∖ {[c]}) = mines_among b X.
Proof.
  intros Hm. unfold mines_among. f_equal. apply set_eq. intros x.
  rewrite !elem_of_filter, elem_of_difference, elem_of_singleton.
  split; [tauto|]. intros [Hx ?]. repeat split; try done. congruence.
Qed.

Lemma mines_among_difference X Y :
  Y ⊆ X → mines_among b (X ∖ Y) = (mines_among b X - mines_among b Y)%nat.
Proof.
  intros Hsub. unfold mines_among.
  replace (filter (λ c, mine_at b c = true) (X ∖ Y))
    with (filter (λ c, mine_at b c = true) X
          ∖ filter (λ c, mine_at b c = true) Y) by set_solver.
  apply size_difference. set_solver.
Qed.

Lemma mines_among_none X :
  mines_among b X = 0%nat → ∀ c, c ∈ X → mine_at b c = false.
Proof.
  intros H0 c Hc. apply size_empty_inv in H0.
  destruct (mine_at b c) eqn:Hm; [|done]. set_solver.
Qed.

Lemma mines_among_all X :
  mines_among b X = size X → ∀ c, c ∈ X → mine_at b c = true.
Proof.
  intros Hall c Hc.
  assert (Heq : filter (λ c, mine_at b c = true) X = X).
  { apply set_subseteq_size_eq; [set_solver|]. unfold mines_among in Hall. lia. }
  rewrite <- Heq in Hc. by apply elem_of_filter in Hc as [? _].
Qed.

Lemma holds_mark_mine s c :
  mine_at b c = true → holds b s → holds b (Sentence.mark_mine s c).2.
Proof.
  unfold holds, Sentence.mark_mine. intros Hm Hs.
  case_bool_decide as Hc; simpl; [|done].
  rewrite mines_among_remove_mine by done.
  pose proof (mines_among_pos _ _ Hm Hc). lia.
Qed.

Lemma holds_mark_safe s c :
  mine_at b c = false → holds b s → holds b (Sentence.mark_safe s c).2.
Proof.
  unfold holds, Sentence.mark_safe. intros Hm Hs.
  case_bool_decide as Hc; simpl; [|done].
  by rewrite mines_among_remove_safe.
Qed.

Lemma holds_difference s1 s2 :
  holds b s1 → holds b s2 → Sentence.cells s1 ⊆ Sentence.cells s2 →
  holds b (Sentence.mk (Sentence.cells s2 ∖ Sentence.cells s1)
                       (Sentence.count s2 - Sentence.count s1)).
Proof.
  unfold holds. intros H1 H2 Hsub. simpl.
  rewrite mines_among_difference, H1, H2 by done.
  assert (mines_among b (Sentence.cells s1) ≤ mines_among b (Sentence.cells s2))%nat.
  { apply subseteq_size. set_solver. }
  lia.
Qed.

Lemma holds_bounds s :
  holds b s → 0 ≤ Sentence.count s ≤ Z.of_nat (size (Sentence.cells s)).
Proof.
  unfold holds. intros ->. pose proof (mines_among_le (Sentence.cells s)). lia.
Qed.

Lemma holds_known_safes s c :
  holds b s → c ∈ Sentence.known_safes s → mine_at b c = false.
Proof.
  unfold holds, Sentence.known_safes. intros Hs.
  case_bool_decide as H0; [|set_solver].
  apply mines_among_none. lia.
Qed.

Lemma holds_known_mines s c :
  holds b s → c ∈ Sentence.known_mines s → mine_at b c = true.
Proof.
  unfold holds, Sentence.known_mines. intros Hs.
  case_bool_decide as Hn; [|set_solver].
  apply mines_among_all. lia.
Qed.

(** *** The marking operations keep what is known true *)

Lemma sound_mark_safe self c :
  mine_at b c = false → sound b self → sound b (MinesweeperAI.mark_safe self c).
Proof.
  intros Hc (Hh & Hw & Hm & Hs & Hk). repeat split; simpl; try done.
  - intros x [?| ->%elem_of_singleton]%elem_of_union; auto.
  - intros s (s0 & -> & Hs0)%list_elem_of_fmap. apply holds_mark_safe; auto.
Qed.

Lemma sound_mark_mine self c :
  mine_at b c = true → sound b self → sound b (MinesweeperAI.mark_mine self c).
Proof.
  intros Hc (Hh & Hw & Hm & Hs & Hk). repeat split; simpl; try done.
  - intros x [?| ->%elem_of_singleton]%elem_of_union; auto.
  - intros s (s0 & -> & Hs0)%list_elem_of_fmap. apply holds_mark_mine; auto.
Qed.

Lemma sound_mark_safe_all self (l : list cell) :
  (∀ c, c ∈ l → mine_at b c = false) → sound b self →
  sound b (foldl MinesweeperAI.mark_safe self l).
Proof.
  revert self. induction l as [|x l IH]; intros self Hl Hself; simpl; [done|].
  apply IH; [intros c Hc; apply Hl; set_solver|].
  apply sound_mark_safe; [apply Hl; set_solver|done].
Qed.

Lemma sound_mark_mine_all self (l : list cell) :
  (∀ c, c ∈ l → mine_at b c = true) → sound b self →
  sound b (foldl MinesweeperAI.mark_mine self l).
Proof.
  revert self. induction l as [|x l IH]; intros self Hl Hself; simpl; [done|].
  apply IH; [intros c Hc; apply Hl; set_solver|].
  apply sound_mark_mine; [apply Hl; set_solver|done].
Qed.

Lemma sound_mark_cells self :
  sound b self → sound b (MinesweeperAI.mark_cells self).
Proof.
  intros Hself. pose proof Hself as (_ & _ & _ & _ & Hk).
  unfold MinesweeperAI.mark_cells. simpl.
  apply sound_mark_mine_all.
  - intros c (_ & s & Hs & Hc)%scan_mines. eapply holds_known_mines; eauto.
  - apply sound_mark_safe_all; [|done].
    intros c (_ & s & Hs & Hc)%scan_safes. eapply holds_known_safes; eauto.
Qed.

Lemma sound_resolve self :
  sound b self → sound b (MinesweeperAI.resolve self).
Proof.
  intros (Hh & Hw & Hm & Hs & Hk). repeat split; simpl; try done.
  intros s [?|Hnew]%elem_of_app; [auto|].
  apply new_sentences_spec in Hnew as (A & B & HA & HB & _ & Hsub & -> & _).
  apply holds_difference; auto.
Qed.
End truth.

(** ** The count the board gives and the sentence built from it *)

Section around_cells.
Implicit Types (c : cell) (self : AI).

Lemma range_around (x : Z) : Minesweeper.range (x - 1) (x + 2) = [x - 1; x; x + 1].
Proof.
  unfold Minesweeper.range. replace (x + 2 - (x - 1)) with 3 by lia.
  change (Z.to_nat 3) with 3%nat. cbn [seq map].
  f_equal; [lia|f_equal; [lia|f_equal; lia]].
Qed.

Lemma NoDup_around c : NoDup (around c).
Proof.
  unfold around.
  repeat (apply NoDup_cons; split;
          [set_unfold; intros H; destruct_or?; simplify_eq; lia|]).
  apply NoDup_nil_2.
Qed.

(** The list [neighbors] holds cells around [c] only, and all of those
    that lie on the grid when [c] does. *)
Lemma neighbors_around self c x :
  x ∈ MinesweeperAI.neighbors self c → x ∈ around c.
Proof.
  unfold MinesweeperAI.neighbors, around.
  repeat case_bool_decide; set_unfold; intros Hin; destruct_or?;
    simplify_eq; tauto.
Qed.
End around_cells.

Section board_cells.
Context (b : Board).
Implicit Types (c : cell) (self : AI).

Lemma mine_at_inside c : mine_at b c = true → inside b c.
Proof.
  unfold mine_at. intros [H _]%andb_prop. by apply bool_decide_eq_true in H.
Qed.

Lemma mine_at_is_mine c : mine_at b c = true → Minesweeper.is_mine b c = Some true.
Proof.
  unfold mine_at. intros [_ H]%andb_prop.
  by destruct (Minesweeper.is_mine b c) as [[]|].
Qed.

Lemma mines_among_list (l : list cell) :
  NoDup l → Z.of_nat (mines_among b (list_to_set l)) = tally b l.
Proof.
  unfold mines_among. induction 1 as [|x l Hx Hl IH]; simpl.
  - replace (filter (λ c, mine_at b c = true) (∅ : gset cell))
      with (∅ : gset cell) by set_solver.
    by rewrite size_empty.
  - replace (filter (λ c, mine_at b c = true) ({[x]} ∪ list_to_set l : gset cell))
      with (filter (λ c, mine_at b c = true) ({[x]} : gset cell)
            ∪ filter (λ c, mine_at b c = true) (list_to_set l : gset cell))
      by set_solver.
    rewrite size_union by set_solver.
    rewrite Nat2Z.inj_add, IH. f_equal. unfold bit.
    destruct (mine_at b x) eqn:Hm.
    + replace (filter (λ c, mine_at b c = true) ({[x]} : gset cell))
        with ({[x]} : gset cell) by set_solver.
      by rewrite size_singleton.
    + replace (filter (λ c, mine_at b c = true) ({[x]} : gset cell))
        with (∅ : gset cell).
      * by rewrite size_empty.
      * apply set_eq. intros y. rewrite elem_of_filter, elem_of_singleton.
        split; [set_solver|]. intros [? ->]. congruence.
Qed.

Lemma around_neighbors self c x :
  MinesweeperAI.height self = Minesweeper.height b →
  MinesweeperAI.width self = Minesweeper.width b →
  inside b c → inside b x → x ∈ around c →
  x ∈ MinesweeperAI.neighbors self c.
Proof.
  unfold MinesweeperAI.neighbors, around, inside.
  intros -> -> Hc Hx Hin. destruct c as [i j], x as [i' j']. simpl in *.
  set_unfold in Hin.
  repeat case_bool_decide; set_unfold; destruct_or?; simplify_eq;
    first [lia | tauto].
Qed.
End board_cells.

Section counting.
Context (b : Board) (Hwf : well_formed b).
Implicit Types (s : Sentence) (c : cell) (X : gset cell) (self : AI).

Lemma is_mine_inside c :
  inside b c → ∃ x, Minesweeper.is_mine b c = Some x ∧ mine_at b c = x.
Proof using Hwf.
  destruct Hwf as [Hrows Hcols]. intros [Hi Hj].
  unfold mine_at, Minesweeper.is_mine.
  rewrite bool_decide_eq_true_2 by done.
  destruct (getitem_inside (Minesweeper.board b) c.1) as (row & -> & Hrow); [lia|].
  assert (Hlen : length row = Z.to_nat (Minesweeper.width b)).
  { eapply Forall_lookup_1 in Hcols; [exact Hcols|exact Hrow]. }
  destruct (getitem_inside row c.2) as (x & Hx & _); [lia|].
  exists x. simpl. rewrite Hx. by destruct x.
Qed.

(** One turn of the inner loop of [nearby_mines]. *)
Lemma nearby_step c (count i j : Z) :
  (count ← Some count;
   if bool_decide ((i, j) = c) then Some count
   else if bool_decide (0 ≤ i < Minesweeper.height b ∧ 0 ≤ j < Minesweeper.width b)
        then row ← Minesweeper.getitem (Minesweeper.board b) i;
             x ← Minesweeper.getitem row j;
             Some (if x : bool then count + 1 else count)
        else Some count)
  = Some (count + (if bool_decide ((i, j) = c) then 0
                   else bit (mine_at b (i, j)))).
Proof using Hwf.
  simpl. case_bool_decide as Hc; [f_equal; lia|].
  case_bool_decide as Hin.
  - destruct (is_mine_inside (i, j) Hin) as (x & Hx & ->).
    unfold Minesweeper.is_mine in Hx. simpl in Hx.
    destruct (Minesweeper.getitem (Minesweeper.board b) i) as [row|]; [|done].
    simpl in *. rewrite Hx. simpl. destruct x; simpl; f_equal; lia.
  - unfold mine_at. rewrite bool_decide_eq_false_2 by done. simpl.
    f_equal. lia.
Qed.

Lemma nearby_mines_tally c :
  Minesweeper.nearby_mines b c = Some (tally b (around c)).
Proof using Hwf.
  destruct c as [i j]. unfold Minesweeper.nearby_mines. simpl fst. simpl snd.
  rewrite !range_around. cbn [foldl].
  rewrite !nearby_step.
  rewrite (bool_decide_eq_true_2 ((i, j) = (i, j))) by done.
  rewrite !bool_decide_eq_false_2 by (intros [=]; lia).
  unfold tally, around. simpl. f_equal. lia.
Qed.

End counting.

(** ** [add_knowledge] under its contract *)

Section contract.
Context (b : Board) (Hwf : well_formed b).
Implicit Types (s : Sentence) (c : cell) (X : gset cell) (self : AI).

Lemma holds_strip_mines X s :
  (∀ c, c ∈ X → mine_at b c = true) → holds b s →
  holds b (MinesweeperAI.strip_mines X s).
Proof.
  intros HX. unfold MinesweeperAI.strip_mines.
  assert (Hl : ∀ c, c ∈ elements X → mine_at b c = true).
  { intros c Hc. apply HX. set_solver. }
  revert s Hl. generalize (elements X) as l.
  induction l as [|x l IH]; intros s Hl Hs; simpl; [done|].
  apply IH; [intros c Hc; apply Hl; set_solver|].
  case_bool_decide; [|done]. apply holds_mark_mine; [|done].
  apply Hl. set_solver.
Qed.

Lemma holds_update_new self s :
  (∀ c, c ∈ MinesweeperAI.mines self → mine_at b c = true) → holds b s →
  holds b (MinesweeperAI.update_new self s).
Proof.
  intros Hm. unfold MinesweeperAI.update_new.
  revert s. induction (MinesweeperAI.knowledge self) as [|x l IH];
    intros s Hs; simpl; [done|].
  apply IH. by apply holds_strip_mines.
Qed.

Lemma not_mine_at c : Minesweeper.is_mine b c = Some false → mine_at b c = false.
Proof. unfold mine_at. intros ->. apply andb_false_r. Qed.

Lemma sound_add_sentence self c n :
  sound b self → truthful b (c, n) →
  sound b (MinesweeperAI.add_sentence self c n).
Proof using Hwf.
  intros (Hh & Hw & Hm & Hs & Hk) (Hin & Hc & Hn). simpl in *.
  apply not_mine_at in Hc.
  assert (Hs' : ∀ x, x ∈ MinesweeperAI.safes self ∪ {[c]} → mine_at b x = false).
  { intros x [?| ->%elem_of_singleton]%elem_of_union; auto. }
  unfold MinesweeperAI.add_sentence.
  case_bool_decide as Hold; (repeat split; simpl; try done).
  intros s [?| ->%list_elem_of_singleton]%elem_of_app; [auto|].
  apply holds_update_new; [done|]. unfold holds. simpl.
  assert (Hn' : n = tally b (around c)).
  { rewrite (nearby_mines_tally b Hwf) in Hn. congruence. }
  rewrite Hn', <- (mines_among_list b (around c)) by apply NoDup_around.
  f_equal. unfold mines_among. f_equal. apply set_eq. intros x.
  rewrite !elem_of_filter, !elem_of_list_to_set, list_elem_of_filter. simpl.
  split.
  - intros (Hx & Har). repeat split; try done.
    + intros Hsafe. apply Hs' in Hsafe. congruence.
    + apply (around_neighbors b); try done. by apply mine_at_inside.
  - intros (Hx & _ & Hnb). split; [done|]. by apply neighbors_around in Hnb.
Qed.

Lemma sound_add_knowledge self c n :
  sound b self → truthful b (c, n) →
  sound b (MinesweeperAI.add_knowledge self c n).
Proof using Hwf.
  intros Hself Hcall. unfold MinesweeperAI.add_knowledge.
  by apply sound_mark_cells, sound_resolve, sound_mark_cells,
           sound_add_sentence.
Qed.

Lemma sound_init :
  sound b (MinesweeperAI.init (Minesweeper.height b) (Minesweeper.width b)).
Proof.
  repeat split; simpl; try done; intros x Hx; set_solver.
Qed.

Lemma sound_observe_all self (calls : list (cell * Z)) :
  sound b self → Forall (truthful b) calls →
  sound b (MinesweeperAI.observe_all self calls).
Proof using Hwf.
  revert self. induction calls as [|[c n] calls IH];
    intros self Hself Hcalls; simpl; [done|].
  apply Forall_cons in Hcalls as [Hcall Hcalls].
  apply IH; [|done]. by apply sound_add_knowledge.
Qed.
End contract.

(** ** [safes] and [mines] only grow *)

Section growth.
Implicit Types (c : cell) (self : AI).

Lemma add_sentence_grows self c n :
  MinesweeperAI.safes self ⊆ MinesweeperAI.safes (MinesweeperAI.add_sentence self c n)
  ∧ MinesweeperAI.mines self ⊆ MinesweeperAI.mines (MinesweeperAI.add_sentence self c n).
Proof.
  unfold MinesweeperAI.add_sentence. case_bool_decide; simpl; set_solver.
Qed.

Lemma mark_cells_grows self :
  MinesweeperAI.safes self ⊆ MinesweeperAI.safes (MinesweeperAI.mark_cells self)
  ∧ MinesweeperAI.mines self ⊆ MinesweeperAI.mines (MinesweeperAI.mark_cells self).
Proof.
  split; intros c Hc; [apply mark_cells_safes|apply mark_cells_mines]; tauto.
Qed.

Lemma add_knowledge_grows self c n :
  MinesweeperAI.safes self ⊆ MinesweeperAI.safes (MinesweeperAI.add_knowledge self c n)
  ∧ MinesweeperAI.mines self ⊆ MinesweeperAI.mines (MinesweeperAI.add_knowledge self c n).
Proof.
  unfold MinesweeperAI.add_knowledge.
  destruct (add_sentence_grows self c n) as [Hs1 Hm1].
  destruct (mark_cells_grows (MinesweeperAI.add_sentence self c n)) as [Hs2 Hm2].
  destruct (mark_cells_grows
              (MinesweeperAI.resolve
                 (MinesweeperAI.mark_cells (MinesweeperAI.add_sentence self c n))))
    as [Hs3 Hm3].
  simpl in *. split; set_solver.
Qed.
End growth.

(** ** Soundness, disjointness and count bounds *)

(** C1: on a board shaped as [__init__] builds it, after any sequence of
    [add_knowledge] calls that each give a revealed cell of the board (on
    the grid, not a mine) with the count [nearby_mines] returns for it,
    started from a fresh player of the board's size, every cell of [mines]
    is a mine of the board; this holds after every prefix of the calls. *)
Theorem mines_are_mines (b : Board) (calls : list (cell * Z)) (k : nat) (c : cell) :
  well_formed b →
  Forall (truthful b) calls →
  c ∈ MinesweeperAI.mines
        (MinesweeperAI.observe_all
           (MinesweeperAI.init (Minesweeper.height b) (Minesweeper.width b))
           (take k calls)) →
  Minesweeper.is_mine b c = Some true.
Proof.
  intros Hwf Hcalls Hc. apply mine_at_is_mine.
  destruct (sound_observe_all b Hwf
              (MinesweeperAI.init (Minesweeper.height b) (Minesweeper.width b))
              (take k calls)) as (_ & _ & Hm & _).
  - by apply sound_init.
  - by apply Forall_take.
  - by apply Hm.
Qed.

Lemma mines_are_mines_witness :
  Minesweeper.is_mine board_1x2 (0, 1) = Some true.
Proof.
  apply (mines_are_mines board_1x2 [((0, 0), 1)] 1 (0, 1)).
  - split; [reflexivity|]. repeat constructor.
  - constructor; [|constructor].
    split; [|split]; [|reflexivity|reflexivity].
    unfold inside. simpl. lia.
  - vm_compute. reflexivity.
Defined.

(** C3, as the code has it: [safes] and [mines] never lose a member in a
    call of [add_knowledge], whatever the call; and they have no cell in
    common after any sequence of calls that keep the contract of
    [add_knowledge] (a revealed cell of one board, on the grid and not a
    mine, with its true count), started from a fresh player. *)
Theorem safes_mines_grow_apart :
  (∀ (self : AI) (c : cell) (n : Z),
     MinesweeperAI.safes self
       ⊆ MinesweeperAI.safes (MinesweeperAI.add_knowledge self c n)
     ∧ MinesweeperAI.mines self
       ⊆ MinesweeperAI.mines (MinesweeperAI.add_knowledge self c n))
  ∧ (∀ (b : Board) (calls : list (cell * Z)),
       well_formed b →
       Forall (truthful b) calls →
       MinesweeperAI.safes
         (MinesweeperAI.observe_all
            (MinesweeperAI.init (Minesweeper.height b) (Minesweeper.width b)) calls)
       ## MinesweeperAI.mines
         (MinesweeperAI.observe_all
            (MinesweeperAI.init (Minesweeper.height b) (Minesweeper.width b)) calls)).
Proof.
  split; [apply add_knowledge_grows|].
  intros b calls Hwf Hcalls.
  destruct (sound_observe_all b Hwf
              (MinesweeperAI.init (Minesweeper.height b) (Minesweeper.width b))
              calls) as (_ & _ & Hm & Hs & _); [by apply sound_init|done|].
  intros c Hsafe Hmine. apply Hs in Hsafe. apply Hm in Hmine. congruence.
Qed.

Lemma safes_mines_grow_apart_witness :
  MinesweeperAI.safes
    (MinesweeperAI.observe_all (MinesweeperAI.init 1 2) [((0, 0), 1)])
  ## MinesweeperAI.mines
    (MinesweeperAI.observe_all (MinesweeperAI.init 1 2) [((0, 0), 1)]).
Proof.
  destruct safes_mines_grow_apart as [_ H].
  apply (H board_1x2 [((0, 0), 1)]).
  - split; [reflexivity|]. repeat constructor.
  - constructor; [|constructor].
    split; [|split]; [|reflexivity|reflexivity].
    unfold inside. simpl. lia.
Defined.

(** C3 as stated fails: on a 1 x 2 grid the call for (0, 0) with count 1
    makes (0, 1) a known mine, and a later call for (0, 1) puts it into
    [safes] as well. *)
Lemma safes_mines_overlap :
  (0, 1) ∈ MinesweeperAI.safes
             (MinesweeperAI.observe_all (MinesweeperAI.init 1 2)
                [((0, 0), 1); ((0, 1), 0)])
  ∧ (0, 1) ∈ MinesweeperAI.mines
               (MinesweeperAI.observe_all (MinesweeperAI.init 1 2)
                  [((0, 0), 1); ((0, 1), 0)]).
Proof. split; compute_done. Qed.

(** C6: under the same contract, after every call each sentence of
    [knowledge] has a count between 0 and the number of its cells. *)
Theorem sentence_count_bounds (b : Board) (calls : list (cell * Z)) (s : Sentence) :
  well_formed b →
  Forall (truthful b) calls →
  s ∈ MinesweeperAI.knowledge
        (MinesweeperAI.observe_all
           (MinesweeperAI.init (Minesweeper.height b) (Minesweeper.width b)) calls) →
  0 ≤ Sentence.count s ≤ Z.of_nat (size (Sentence.cells s)).
Proof.
  intros Hwf Hcalls Hs.
  destruct (sound_observe_all b Hwf
              (MinesweeperAI.init (Minesweeper.height b) (Minesweeper.width b))
              calls) as (_ & _ & _ & _ & Hk); [by apply sound_init|done|].
  by apply (holds_bounds b), Hk.
Qed.

Lemma sentence_count_bounds_witness :
  0 ≤ Sentence.count (Sentence.mk {[(0, 0); (0, 2)]} 1)
    ≤ Z.of_nat (size (Sentence.cells (Sentence.mk {[(0, 0); (0, 2)]} 1))).
Proof.
  apply (sentence_count_bounds board_1x3 [((0, 1), 1)]).
  - split; [reflexivity|]. repeat constructor.
  - constructor; [|constructor].
    split; [|split]; [|reflexivity|reflexivity].
    unfold inside. simpl. lia.
  - vm_compute. apply list_elem_of_here.
Defined.

(** ** Purging known cells from the sentences *)

Section purge.
Implicit Types (s : Sentence) (c : cell) (self : AI).

(** The player's own [mark_safe] and [mark_mine] take the cell out of
    every sentence of [knowledge]. *)
Lemma mark_safe_purges self c s :
  s ∈ MinesweeperAI.knowledge (MinesweeperAI.mark_safe self c) →
  c ∉ Sentence.cells s.
Proof.
  simpl. intros (s0 & -> & _)%list_elem_of_fmap.
  rewrite mark_safe_cells. set_solver.
Qed.

Lemma mark_mine_purges self c s :
  s ∈ MinesweeperAI.knowledge (MinesweeperAI.mark_mine self c) →
  c ∉ Sentence.cells s.
Proof.
  simpl. intros (s0 & -> & _)%list_elem_of_fmap.
  rewrite mark_mine_cells. set_solver.
Qed.
End purge.

(** C2 at a failing input: on the 1 x 3 board with its mine at (0, 2), the
    calls for (0, 1) with count 1 and then for (0, 0) with count 0 keep the
    contract, and yet afterwards the revealed cell (0, 0) is in [safes] and
    still in the sentence {(0, 0), (0, 2)} = 1 of [knowledge]:
    [add_knowledge] adds the cell to [safes] without going through
    [mark_safe].  The mine at (0, 2) is not found. *)
Theorem revealed_cell_not_purged :
  let calls := [((0, 1), 1); ((0, 0), 0)] in
  let after := MinesweeperAI.observe_all (MinesweeperAI.init 1 3) calls in
  Forall (truthful board_1x3) calls
  ∧ (0, 0) ∈ MinesweeperAI.safes after
  ∧ MinesweeperAI.knowledge after
    = [Sentence.mk {[(0, 0); (0, 2)]} 1; Sentence.mk ∅ 0]
  ∧ (0, 0) ∈ Sentence.cells (Sentence.mk {[(0, 0); (0, 2)]} 1)
  ∧ MinesweeperAI.mines after = ∅.
Proof.
  cbv zeta. split; [|split; [|split; [|split]]].
  - repeat constructor; unfold inside; simpl; lia.
  - compute_done.
  - vm_compute. reflexivity.
  - compute_done.
  - vm_compute. reflexivity.
Qed.

(** ** Appending derived sentences *)

(** C7 at a failing input: on the 2 x 3 board with mines at (0, 0) and
    (0, 2), after the calls for (1, 0), (1, 2) and (0, 1), the call for
    (1, 1) with count 2 keeps the contract and its resolution pass builds
    the list [new_sentences] with the sentence {(0, 1)} = 0 twice; both
    copies are appended, so the second is appended while an equal sentence
    is in [knowledge], and both are there when the call returns. *)
Theorem derived_sentence_appended_twice :
  let calls := [((1, 0), 1); ((1, 2), 1); ((0, 1), 2)] in
  let before := MinesweeperAI.observe_all (MinesweeperAI.init 2 3) calls in
  let scanned :=
    MinesweeperAI.mark_cells (MinesweeperAI.add_sentence before (1, 1) 2) in
  let s := Sentence.mk {[(0, 1)]} 0 in
  Forall (truthful board_2x3) (calls ++ [((1, 1), 2)])
  ∧ s ∉ MinesweeperAI.knowledge scanned
  ∧ MinesweeperAI.new_sentences (MinesweeperAI.knowledge scanned) = [s; s]
  ∧ MinesweeperAI.knowledge (MinesweeperAI.resolve scanned)
    = (MinesweeperAI.knowledge scanned ++ [s]) ++ [s]
  ∧ MinesweeperAI.knowledge (MinesweeperAI.add_knowledge before (1, 1) 2)
    = [Sentence.mk {[(0, 1); (1, 1)]} 0; Sentence.mk {[(0, 1); (1, 1)]} 0;
       Sentence.mk {[(1, 1)]} 0; Sentence.mk ∅ 0; s; s].
Proof.
  cbv zeta. split; [|split; [|split; [|split]]].
  - repeat constructor; unfold inside; simpl; lia.
  - compute_done.
  - vm_compute. reflexivity.
  - vm_compute. reflexivity.
  - vm_compute. reflexivity.
Qed.

(** ** Repeating the deduction pass *)

Section passes.
Implicit Types (s : Sentence) (c : cell) (self : AI) (k : list Sentence).

Lemma total_cells_remove (f : Sentence → Sentence) c k :
  (∀ s, Sentence.cells (f s) = Sentence.cells s ∖ {[c]}) →
  (total_cells (map f k) ≤ total_cells k)%nat
  ∧ ((∃ s, s ∈ k ∧ c ∈ Sentence.cells s) → (total_cells (map f k) < total_cells k)%nat).
Proof.
  intros Hf. induction k as [|s k [IHle IHlt]]; simpl.
  - split; [lia|]. intros (s & Hs & _). by apply elem_of_nil in Hs.
  - assert (Hle : (size (Sentence.cells (f s)) ≤ size (Sentence.cells s))%nat).
    { rewrite Hf. apply subseteq_size. set_solver. }
    split; [lia|]. intros (s' & [->|Hs']%elem_of_cons & Hc).
    + assert (size (Sentence.cells (f s)) < size (Sentence.cells s))%nat; [|lia].
      rewrite Hf, size_difference, size_singleton by set_solver.
      assert (size ({[c]} : gset cell) ≤ size (Sentence.cells s))%nat
        by (apply subseteq_size; set_solver).
      rewrite size_singleton in *. lia.
    + assert (total_cells (map f k) < total_cells k)%nat by eauto. lia.
Qed.

Lemma total_cells_remove_le (f : Sentence → Sentence) c k :
  (∀ s, Sentence.cells (f s) = Sentence.cells s ∖ {[c]}) →
  (total_cells (map f k) ≤ total_cells k)%nat.
Proof. intros Hf. by apply (total_cells_remove f c k). Qed.

Lemma total_cells_remove_lt (f : Sentence → Sentence) c k :
  (∀ s, Sentence.cells (f s) = Sentence.cells s ∖ {[c]}) →
  (∃ s, s ∈ k ∧ c ∈ Sentence.cells s) →
  (total_cells (map f k) < total_cells k)%nat.
Proof. intros Hf. by apply (total_cells_remove f c k). Qed.

Lemma total_cells_mark_safe_all self (l : list cell) :
  (total_cells (MinesweeperAI.knowledge (foldl MinesweeperAI.mark_safe self l))
   ≤ total_cells (MinesweeperAI.knowledge self))%nat.
Proof.
  revert self. induction l as [|c l IH]; intros self; simpl; [lia|].
  etrans; [apply IH|]. simpl. apply (total_cells_remove_le _ c). intros s. apply mark_safe_cells.
Qed.

Lemma total_cells_mark_mine_all self (l : list cell) :
  (total_cells (MinesweeperAI.knowledge (foldl MinesweeperAI.mark_mine self l))
   ≤ total_cells (MinesweeperAI.knowledge self))%nat.
Proof.
  revert self. induction l as [|c l IH]; intros self; simpl; [lia|].
  etrans; [apply IH|]. simpl. apply (total_cells_remove_le _ c). intros s. apply mark_mine_cells.
Qed.

(** A pass that finds a new cell takes it out of a sentence. *)
Lemma mark_cells_unloads self :
  MinesweeperAI.scan self ≠ ([], []) →
  (total_cells (MinesweeperAI.knowledge (MinesweeperAI.mark_cells self))
   < total_cells (MinesweeperAI.knowledge self))%nat.
Proof.
  intros Hscan. unfold MinesweeperAI.mark_cells. simpl.
  pose proof (scan_safes self) as Hsafes.
  pose proof (scan_mines self) as Hmines.
  destruct (MinesweeperAI.scan self) as [[|c l] [|c' l']]; simpl in *; [done| | |].
  - eapply Nat.le_lt_trans; [apply total_cells_mark_mine_all|]. simpl.
    apply (total_cells_remove_lt _ c'); [intros s; apply mark_mine_cells|].
    destruct (Hmines c') as [(_ & s & Hs & Hc) _]; [set_solver|].
    exists s. split; [done|]. by apply known_mines_subseteq.
  - eapply Nat.le_lt_trans; [apply total_cells_mark_safe_all|]. simpl.
    apply (total_cells_remove_lt _ c); [intros s; apply mark_safe_cells|].
    destruct (Hsafes c) as [(_ & s & Hs & Hc) _]; [set_solver|].
    exists s. split; [done|]. by apply known_safes_subseteq.
  - eapply Nat.le_lt_trans; [apply total_cells_mark_mine_all|].
    eapply Nat.le_lt_trans;
      [simpl; apply (total_cells_remove_le _ c'); intros s; apply mark_mine_cells|].
    eapply Nat.le_lt_trans; [apply total_cells_mark_safe_all|]. simpl.
    apply (total_cells_remove_lt _ c); [intros s; apply mark_safe_cells|].
    destruct (Hsafes c) as [(_ & s & Hs & Hc) _]; [set_solver|].
    exists s. split; [done|]. by apply known_safes_subseteq.
Qed.

Lemma mark_cells_idle self :
  MinesweeperAI.scan self = ([], []) → MinesweeperAI.mark_cells self = self.
Proof. unfold MinesweeperAI.mark_cells. by intros ->. Qed.

Lemma passes_settle (n : nat) self :
  (total_cells (MinesweeperAI.knowledge self) ≤ n)%nat →
  MinesweeperAI.mark_cells (Nat.iter n MinesweeperAI.mark_cells self)
  = Nat.iter n MinesweeperAI.mark_cells self.
Proof.
  revert self. induction n as [|n IH]; intros self Hload.
  - simpl. apply mark_cells_idle.
    destruct (decide (MinesweeperAI.scan self = ([], []))) as [|Hne]; [done|].
    apply mark_cells_unloads in Hne. lia.
  - rewrite Nat.iter_succ_r.
    destruct (decide (MinesweeperAI.scan self = ([], []))) as [Hidle|Hne].
    + rewrite (mark_cells_idle _ Hidle).
      assert (Hfix : ∀ m, Nat.iter m MinesweeperAI.mark_cells self = self).
      { induction m as [|m IHm]; simpl; [done|].
        by rewrite IHm, (mark_cells_idle _ Hidle). }
      by rewrite Hfix, (mark_cells_idle _ Hidle).
    + apply IH. apply mark_cells_unloads in Hne. lia.
Qed.
End passes.

(** C4, as the code has it: a deduction pass that finds no new safe cell
    and no new mine leaves the state as it is, and from any state the pass,
    repeated as many times as the sentences of [knowledge] have cells
    (counted with repeats), reaches a state that one more pass leaves
    unchanged.  One pass alone need not reach it. *)
Theorem deduction_settles (self : AI) :
  (MinesweeperAI.scan self = ([], []) → MinesweeperAI.mark_cells self = self)
  ∧ (∀ n : nat,
       (total_cells (MinesweeperAI.knowledge self) ≤ n)%nat →
       MinesweeperAI.mark_cells (Nat.iter n MinesweeperAI.mark_cells self)
       = Nat.iter n MinesweeperAI.mark_cells self).
Proof.
  split; [apply mark_cells_idle|]. intros n. apply passes_settle.
Qed.

Lemma deduction_settles_witness :
  let self := MinesweeperAI.observe_all (MinesweeperAI.init 3 3)
                [((1, 0), 1); ((0, 1), 3); ((2, 0), 1)] in
  MinesweeperAI.mark_cells (Nat.iter 11 MinesweeperAI.mark_cells self)
  = Nat.iter 11 MinesweeperAI.mark_cells self.
Proof.
  intros self. destruct (deduction_settles self) as [_ H].
  apply (H 11%nat). vm_compute. lia.
Defined.

(** C4 as stated fails: on the 3 x 3 board with mines at (0, 2), (1, 1),
    (1, 2) and (2, 2), after the calls for (1, 0), (0, 1) and (2, 0), which
    keep the contract, a first further pass finds the three mines next to
    (0, 1), and only the second one finds that (2, 1) is safe. *)
Lemma second_pass_changes_state :
  let calls := [((1, 0), 1); ((0, 1), 3); ((2, 0), 1)] in
  let self := MinesweeperAI.observe_all (MinesweeperAI.init 3 3) calls in
  Forall (truthful board_3x3) calls
  ∧ (2, 1) ∉ MinesweeperAI.safes (MinesweeperAI.mark_cells self)
  ∧ (2, 1) ∈ MinesweeperAI.safes
               (MinesweeperAI.mark_cells (MinesweeperAI.mark_cells self))
  ∧ MinesweeperAI.mark_cells (MinesweeperAI.mark_cells self)
    ≠ MinesweeperAI.mark_cells self.
Proof.
  cbv zeta. split; [|split; [|split]].
  - repeat constructor; unfold inside; simpl; lia.
  - compute_done.
  - compute_done.
  - intros Heq.
    assert (Hin : (2, 1) ∈ MinesweeperAI.safes
                    (MinesweeperAI.mark_cells
                       (MinesweeperAI.mark_cells
                          (MinesweeperAI.observe_all (MinesweeperAI.init 3 3)
                             [((1, 0), 1); ((0, 1), 3); ((2, 0), 1)]))))
      by compute_done.
    rewrite Heq in Hin. revert Hin. compute_done.
Qed.

(** ** The board that [__init__] returns *)

Section built_board.
Implicit Types (self : Board) (c : cell).

Lemma mine_at_lookup self c :
  mine_at self c = true ↔
  inside self c
  ∧ ∃ row, Minesweeper.board self !! Z.to_nat c.1 = Some row
           ∧ row !! Z.to_nat c.2 = Some true.
Proof.
  unfold mine_at, Minesweeper.is_mine, Minesweeper.getitem, inside.
  rewrite andb_true_iff, bool_decide_eq_true. split.
  - intros [[Hi Hj] H]. split; [done|].
    rewrite (bool_decide_eq_true_2 (0 ≤ c.1)) in H by lia.
    destruct (Minesweeper.board self !! Z.to_nat c.1) as [row|];
      simpl in H; [|done].
    rewrite (bool_decide_eq_true_2 (0 ≤ c.2)) in H by lia.
    exists row. split; [done|].
    by destruct (row !! Z.to_nat c.2) as [[]|].
  - intros [[Hi Hj] (row & Hrow & Hx)]. split; [done|].
    rewrite (bool_decide_eq_true_2 (0 ≤ c.1)) by lia. rewrite Hrow. simpl.
    rewrite (bool_decide_eq_true_2 (0 ≤ c.2)) by lia. by rewrite Hx.
Qed.

(** The state after the loop body has placed a mine at [(i, j)]. *)
Lemma placed_keeps self (i j : Z) (row : list bool) :
  well_formed self → board_matches self →
  0 ≤ i < Minesweeper.height self → 0 ≤ j < Minesweeper.width self →
  Minesweeper.board self !! Z.to_nat i = Some row →
  let self' :=
    Minesweeper.mk (Minesweeper.height self) (Minesweeper.width self)
      (Minesweeper.mines self ∪ {[(i, j)]})
      (<[Z.to_nat i := <[Z.to_nat j := true]> row]> (Minesweeper.board self))
      (Minesweeper.mines_found self) in
  well_formed self' ∧ board_matches self'.
Proof.
  intros [Hrows Hcols] Hmatch Hi Hj Hrow self'.
  assert (Hlen : length row = Z.to_nat (Minesweeper.width self)).
  { eapply Forall_lookup_1 in Hcols; [exact Hcols|exact Hrow]. }
  assert (Hi' : (Z.to_nat i < length (Minesweeper.board self))%nat).
  { by eapply lookup_lt_Some. }
  split.
  - split; simpl.
    + by rewrite length_insert.
    + apply Forall_insert; [done|]. by rewrite length_insert.
  - intros c. rewrite mine_at_lookup. unfold inside. simpl.
    rewrite elem_of_union, elem_of_singleton, (Hmatch c), mine_at_lookup.
    unfold inside. rewrite list_lookup_insert.
    destruct c as [ci cj]. simpl. split.
    + intros [(Hin & row0 & Hrow0 & Hx)| [= -> ->]].
      * split; [done|]. case_decide as Hd.
        -- destruct Hd as [Hd _]. rewrite <- Hd in Hrow0.
           assert (row0 = row) by congruence. subst row0.
           eexists. split; [done|]. rewrite list_lookup_insert.
           case_decide; [done|done].
        -- eauto.
      * split; [lia|]. rewrite decide_True by done.
        eexists. split; [done|]. apply list_lookup_insert_eq. lia.
    + intros (Hin & row0 & Hrow0 & Hx). case_decide as Hd.
      * destruct Hd as [Hd _]. injection Hrow0 as <-.
        rewrite list_lookup_insert in Hx. case_decide as Hd'.
        -- right. f_equal; lia.
        -- left. split; [done|]. exists row. rewrite <- Hd. done.
      * left. eauto.
Qed.

Lemma add_mines_returned requested (draws : list (Z * Z)) self self' :
  well_formed self → board_matches self →
  Minesweeper.add_mines requested draws self = Minesweeper.Returned self' →
  well_formed self' ∧ board_matches self'
  ∧ Z.of_nat (size (Minesweeper.mines self')) = requested
  ∧ Minesweeper.height self' = Minesweeper.height self
  ∧ Minesweeper.width self' = Minesweeper.width self
  ∧ Minesweeper.mines_found self' = Minesweeper.mines_found self.
Proof.
  revert self. induction draws as [|[r1 r2] draws IH];
    intros self Hwf Hmatch; simpl; case_bool_decide as Hsize; try done.
  - by intros [= <-].
  - unfold Minesweeper.randrange.
    case_bool_decide as Hh; [|done]. case_bool_decide as Hw; [|done].
    pose proof (Z.mod_pos_bound r1 (Minesweeper.height self) Hh) as Hi.
    pose proof (Z.mod_pos_bound r2 (Minesweeper.width self) Hw) as Hj.
    destruct Hwf as [Hrows Hcols].
    destruct (getitem_inside (Minesweeper.board self)
                (r1 `mod` Minesweeper.height self)) as (row & -> & Hrow); [lia|].
    destruct (Minesweeper.getitem row _) as [[]|]; [| |done].
    + by apply IH.
    + intros Hrun.
      destruct (placed_keeps self _ _ row (conj Hrows Hcols) Hmatch Hi Hj Hrow)
        as [Hwf' Hmatch'].
      apply IH in Hrun; [|done|done]. simpl in Hrun. apply Hrun.
  - by intros [= <-].
Qed.
End built_board.

Section built_board_facts.
Implicit Types (self : Board) (c : cell).

Lemma empty_board_sound (h w : Z) :
  let self := Minesweeper.mk h w ∅
                (replicate (Z.to_nat h) (replicate (Z.to_nat w) false)) ∅ in
  well_formed self ∧ board_matches self.
Proof.
  intros self. split.
  - split; simpl.
    + by rewrite length_replicate.
    + apply Forall_replicate. by rewrite length_replicate.
  - intros c. rewrite mine_at_lookup. simpl. split; [set_solver|].
    intros (_ & row & Hrow & Hx).
    apply lookup_replicate in Hrow as [-> _].
    apply lookup_replicate in Hx as [? _]. done.
Qed.

Lemma add_mines_completes requested (ds : list cell) self :
  well_formed self → board_matches self → NoDup ds →
  (∀ d, d ∈ ds → inside self d ∧ d ∉ Minesweeper.mines self) →
  Z.of_nat (size (Minesweeper.mines self)) + Z.of_nat (length ds) = requested →
  ∃ self', Minesweeper.add_mines requested ds self = Minesweeper.Returned self'
           ∧ Minesweeper.mines self' = Minesweeper.mines self ∪ list_to_set ds.
Proof.
  revert self. induction ds as [|[i j] ds IH];
    intros self Hwf Hmatch Hnd Hds Hsize; simpl in *.
  - rewrite bool_decide_eq_false_2 by lia. exists self. split; [done|set_solver].
  - rewrite bool_decide_eq_true_2 by lia.
    apply NoDup_cons in Hnd as [Hfresh Hnd].
    destruct (Hds (i, j)) as [[Hi Hj] Hnew]; [set_solver|]. simpl in Hi, Hj.
    unfold Minesweeper.randrange.
    rewrite !bool_decide_eq_true_2, !Z.mod_small by lia.
    pose proof Hwf as [Hrows Hcols].
    destruct (getitem_inside (Minesweeper.board self) i) as (row & -> & Hrow);
      [lia|].
    assert (Hlen : length row = Z.to_nat (Minesweeper.width self)).
    { eapply Forall_lookup_1 in Hcols; [exact Hcols|exact Hrow]. }
    destruct (getitem_inside row j) as (x & -> & Hx); [lia|].
    destruct x.
    { exfalso. apply Hnew, Hmatch, mine_at_lookup. split; [done|]. eauto. }
    destruct (placed_keeps self i j row Hwf Hmatch Hi Hj Hrow) as [Hwf' Hmatch'].
    match goal with
    | |- ∃ s, Minesweeper.add_mines _ _ ?b = _ ∧ _ =>
        destruct (IH b) as (self' & Hrun & Hmines)
    end; [exact Hwf'|exact Hmatch'|exact Hnd| | |].
    + intros d Hd. destruct (Hds d) as [Hin Hd']; [set_solver|].
      split; [done|]. simpl. set_solver.
    + simpl. rewrite size_union, size_singleton by set_solver. lia.
    + exists self'. split; [done|]. rewrite Hmines. simpl. set_solver.
Qed.

Lemma NoDup_list_prod {A B} (l : list A) (k : list B) :
  NoDup l → NoDup k → NoDup (list_prod l k).
Proof.
  intros Hl Hk. induction Hl as [|a l Ha Hl IH]; simpl; [apply NoDup_nil_2|].
  apply NoDup_app. split; [|split; [|done]].
  - apply (NoDup_fmap_2 (pair a)); first [done | by intros ?? [=]].
  - intros [a' y] Hin1 Hin2.
    apply list_elem_of_fmap in Hin1 as (y' & [= -> ->] & _).
    apply list_elem_of_In, in_prod_iff in Hin2 as [Hin2 _].
    by apply list_elem_of_In in Hin2.
Qed.

Lemma grid_cells_spec (h w : Z) :
  NoDup (grid_cells h w)
  ∧ (∀ c, c ∈ grid_cells h w ↔ 0 ≤ c.1 < h ∧ 0 ≤ c.2 < w)
  ∧ length (grid_cells h w) = (Z.to_nat h * Z.to_nat w)%nat.
Proof.
  unfold grid_cells. split; [|split].
  - apply NoDup_fmap_2; [|apply NoDup_list_prod; apply NoDup_seq].
    intros [a1 a2] [b1 b2] [= H1 H2]. f_equal; lia.
  - intros [i j]. simpl. split.
    + intros ([a1 a2] & [= -> ->] & Hin)%list_elem_of_fmap.
      apply list_elem_of_In, in_prod_iff in Hin as [H1 H2].
      apply in_seq in H1, H2. simpl. lia.
    + intros [Hi Hj]. apply list_elem_of_fmap.
      exists (Z.to_nat i, Z.to_nat j). simpl. split; [f_equal; lia|].
      apply list_elem_of_In, in_prod; apply in_seq; lia.
  - by rewrite length_map, length_prod, !length_seq.
Qed.
End built_board_facts.

(** X1: when [__init__] comes out of the loop, the board has the asked
    height and width, [height] rows of [width] flags, exactly the requested
    number of cells in [mines], and [mines] holds exactly the cells of the
    grid whose flag is set. *)
Theorem built_board_is_exact (h w requested : Z) (draws : list (Z * Z))
    (self : Board) :
  Minesweeper.init h w requested draws = Minesweeper.Returned self →
  Minesweeper.height self = h ∧ Minesweeper.width self = w
  ∧ well_formed self
  ∧ Z.of_nat (size (Minesweeper.mines self)) = requested
  ∧ (∀ c, c ∈ Minesweeper.mines self ↔
          inside self c ∧ Minesweeper.is_mine self c = Some true).
Proof.
  unfold Minesweeper.init. intros Hrun.
  destruct (empty_board_sound h w) as [Hwf Hmatch].
  apply add_mines_returned in Hrun as (Hwf' & Hmatch' & Hsize & Hh & Hw & _);
    [|done|done].
  simpl in *. split; [done|]. split; [done|]. split; [done|]. split; [done|].
  intros c. rewrite (Hmatch' c). split.
  - intros Hc. split; [by apply mine_at_inside|by apply mine_at_is_mine].
  - intros [Hin Hc]. unfold mine_at. by rewrite bool_decide_eq_true_2, Hc.
Qed.

Lemma built_board_is_exact_witness :
  let self := Minesweeper.mk 2 2 {[(1, 0)]} [[false; false]; [true; false]] ∅ in
  Minesweeper.height self = 2 ∧ Minesweeper.width self = 2
  ∧ well_formed self
  ∧ Z.of_nat (size (Minesweeper.mines self)) = 1
  ∧ (∀ c, c ∈ Minesweeper.mines self ↔
          inside self c ∧ Minesweeper.is_mine self c = Some true).
Proof.
  intros self. apply (built_board_is_exact 2 2 1 [(5, 4)] self).
  vm_compute. reflexivity.
Defined.

Lemma placement_of_a_set (h w requested : Z) (M : gset cell) :
  (∀ c, c ∈ M → 0 ≤ c.1 < h ∧ 0 ≤ c.2 < w) →
  Z.of_nat (size M) = requested →
  ∃ draws self,
    Minesweeper.init h w requested draws = Minesweeper.Returned self
    ∧ Minesweeper.mines self = M.
Proof.
  intros HM Hsize. unfold Minesweeper.init.
  destruct (empty_board_sound h w) as [Hwf Hmatch].
  match goal with
  | |- ∃ ds s, Minesweeper.add_mines _ _ ?b = _ ∧ _ =>
      destruct (add_mines_completes requested (elements M) b)
        as (self & Hrun & Hmines)
  end; [exact Hwf|exact Hmatch|apply NoDup_elements| | |].
  - intros d Hd. apply elem_of_elements in Hd. split; [by apply HM|]. simpl.
    set_solver.
  - cbn [Minesweeper.mines]. rewrite size_empty.
    change (length (elements M)) with (size M). lia.
  - exists (elements M), self. split; [done|]. rewrite Hmines. simpl.
    rewrite list_to_set_elements_L. set_solver.
Qed.

(** X2: every way of putting the requested number of mines on the grid can
    come out of [__init__]: for a set of grid cells with as many members as
    mines are requested, some draws make the loop end with that set as
    [mines]. *)
Theorem every_placement_can_come_out (h w requested : Z) (M : gset cell) :
  (∀ c, c ∈ M → 0 ≤ c.1 < h ∧ 0 ≤ c.2 < w) →
  Z.of_nat (size M) = requested →
  ∃ draws self,
    Minesweeper.init h w requested draws = Minesweeper.Returned self
    ∧ Minesweeper.mines self = M.
Proof. apply placement_of_a_set. Qed.

Lemma every_placement_can_come_out_witness :
  ∃ draws self,
    Minesweeper.init 2 3 2 draws = Minesweeper.Returned self
    ∧ Minesweeper.mines self = {[(0, 2); (1, 1)]}.
Proof.
  apply (every_placement_can_come_out 2 3 2 {[(0, 2); (1, 1)]}).
  - intros c Hc. apply elem_of_union in Hc as [Hc|Hc];
      apply elem_of_singleton in Hc; subst c; simpl; lia.
  - reflexivity.
Defined.

(** X3: the loop of [__init__] can end whenever the request fits the grid:
    for [height >= 0], [width >= 0] and a requested number of mines between
    0 and [height * width], some draws make it end. *)
Theorem placement_can_end (h w requested : Z) :
  0 ≤ h → 0 ≤ w → 0 ≤ requested ≤ h * w →
  ∃ draws self,
    Minesweeper.init h w requested draws = Minesweeper.Returned self.
Proof.
  intros Hh Hw Hreq.
  destruct (grid_cells_spec h w) as (Hnd & Hin & Hlen).
  destruct (placement_of_a_set h w requested
              (list_to_set (take (Z.to_nat requested) (grid_cells h w))))
    as (draws & self & Hrun & _).
  - intros c Hc. apply elem_of_list_to_set in Hc.
    apply elem_of_take in Hc as (i & Hi & _).
    apply Hin. by eapply list_elem_of_lookup_2.
  - rewrite size_list_to_set.
    + rewrite length_take. nia.
    + rewrite <- (take_drop (Z.to_nat requested) (grid_cells h w)) in Hnd.
      by apply NoDup_app in Hnd as [? _].
  - eauto.
Qed.

Lemma placement_can_end_witness :
  ∃ draws self, Minesweeper.init 2 2 4 draws = Minesweeper.Returned self.
Proof. apply (placement_can_end 2 2 4); lia. Defined.

(** X4: a board fresh from [__init__] is won exactly when no mine was
    requested: [mines_found] is empty and [mines] has the requested number
    of members. *)
Theorem fresh_board_won (h w requested : Z) (draws : list (Z * Z)) (self : Board) :
  Minesweeper.init h w requested draws = Minesweeper.Returned self →
  (Minesweeper.won self = true ↔ requested = 0).
Proof.
  unfold Minesweeper.init. intros Hrun.
  destruct (empty_board_sound h w) as [Hwf Hmatch].
  apply add_mines_returned in Hrun as (_ & _ & Hsize & _ & _ & Hfound);
    [|done|done].
  simpl in Hfound. unfold Minesweeper.won. rewrite Hfound, bool_decide_eq_true.
  split.
  - intros Heq. rewrite <- Heq, size_empty in Hsize. lia.
  - intros ->. symmetry. apply leibniz_equiv, size_empty_inv. lia.
Qed.

Lemma fresh_board_won_witness :
  Minesweeper.won (Minesweeper.mk 2 2 ∅ [[false; false]; [false; false]] ∅) = true
  ↔ 0 = 0.
Proof.
  apply (fresh_board_won 2 2 0 [(1, 1)]). vm_compute. reflexivity.
Defined.

(** ** Reading the board *)

Section reading.
Implicit Types (b : Board) (c : cell).

Lemma getitem_None {A} (l : list A) (i : Z) :
  Minesweeper.getitem l i = None ↔
  ¬ (- Z.of_nat (length l) ≤ i < Z.of_nat (length l)).
Proof.
  unfold Minesweeper.getitem. repeat case_bool_decide;
    rewrite ?lookup_ge_None; split; intros; try done; lia.
Qed.

Lemma getitem_wrap {A} (l : list A) (i : Z) :
  - Z.of_nat (length l) ≤ i < 0 →
  Minesweeper.getitem l i = Minesweeper.getitem l (Z.of_nat (length l) + i).
Proof.
  intros Hi. unfold Minesweeper.getitem.
  rewrite (bool_decide_eq_false_2 (0 ≤ i)) by lia.
  by rewrite !bool_decide_eq_true_2 by lia.
Qed.

Lemma getitem_row b (i : Z) (row : list bool) :
  well_formed b → Minesweeper.getitem (Minesweeper.board b) i = Some row →
  length row = Z.to_nat (Minesweeper.width b).
Proof.
  intros [_ Hcols] Hrow. unfold Minesweeper.getitem in Hrow.
  repeat case_bool_decide; try done;
    eapply Forall_lookup_1 in Hcols; try exact Hrow; done.
Qed.
End reading.

(** X5: on a board shaped as [__init__] builds it, [is_mine] follows
    Python's indexing: it raises [IndexError] exactly when the row index is
    outside [-height .. height-1] or the column index is outside
    [-width .. width-1], and a negative index reads the cell counted from
    the end, so [is_mine((-1, -1))] reads the last cell of the last row. *)
Theorem is_mine_index (b : Board) (i j : Z) :
  well_formed b →
  (Minesweeper.is_mine b (i, j) = None ↔
   ¬ (- Minesweeper.height b ≤ i < Minesweeper.height b
      ∧ - Minesweeper.width b ≤ j < Minesweeper.width b))
  ∧ (- Minesweeper.height b ≤ i < 0 →
     Minesweeper.is_mine b (i, j) = Minesweeper.is_mine b (Minesweeper.height b + i, j))
  ∧ (- Minesweeper.width b ≤ j < 0 →
     Minesweeper.is_mine b (i, j) = Minesweeper.is_mine b (i, Minesweeper.width b + j)).
Proof.
  intros Hwf. pose proof Hwf as [Hrows Hcols].
  unfold Minesweeper.is_mine. simpl. split; [|split].
  - destruct (Minesweeper.getitem (Minesweeper.board b) i) as [row|] eqn:Hrow; simpl.
    + pose proof (getitem_row b i row Hwf Hrow) as Hlen.
      assert (Hi : ¬ ¬ (- Z.of_nat (length (Minesweeper.board b)) ≤ i
                        < Z.of_nat (length (Minesweeper.board b)))).
      { rewrite <- getitem_None, Hrow. done. }
      rewrite getitem_None. lia.
    + apply getitem_None in Hrow. split; [|done]. lia.
  - intros Hi. rewrite (getitem_wrap (Minesweeper.board b) i) by lia.
    do 3 f_equal. lia.
  - intros Hj.
    destruct (Minesweeper.getitem (Minesweeper.board b) i) as [row|] eqn:Hrow;
      simpl; [|done].
    pose proof (getitem_row b i row Hwf Hrow) as Hlen.
    rewrite (getitem_wrap row j) by lia. f_equal. lia.
Qed.

Lemma is_mine_index_witness :
  (Minesweeper.is_mine board_2x3 (-1, -3) = None ↔
   ¬ (- Minesweeper.height board_2x3 ≤ -1 < Minesweeper.height board_2x3
      ∧ - Minesweeper.width board_2x3 ≤ -3 < Minesweeper.width board_2x3))
  ∧ (- Minesweeper.height board_2x3 ≤ -1 < 0 →
     Minesweeper.is_mine board_2x3 (-1, -3)
     = Minesweeper.is_mine board_2x3 (Minesweeper.height board_2x3 + -1, -3))
  ∧ (- Minesweeper.width board_2x3 ≤ -3 < 0 →
     Minesweeper.is_mine board_2x3 (-1, -3)
     = Minesweeper.is_mine board_2x3 (-1, Minesweeper.width board_2x3 + -3)).
Proof.
  apply (is_mine_index board_2x3 (-1) (-3)).
  split; [reflexivity|]. repeat constructor.
Defined.

(** X6: on a board shaped as [__init__] builds it, [nearby_mines] never
    raises, also for a cell on the border or off the grid; what it returns
    is the number of mines of the board among the eight cells around the
    cell, the cell itself left out, hence a number from 0 to 8. *)
Theorem nearby_mines_counts (b : Board) (c : cell) :
  well_formed b →
  ∃ n, Minesweeper.nearby_mines b c = Some n
       ∧ n = Z.of_nat (mines_among b (list_to_set (around c)))
       ∧ c ∉ around c
       ∧ 0 ≤ n ≤ 8.
Proof.
  intros Hwf. exists (tally b (around c)).
  rewrite (mines_among_list b (around c)) by apply NoDup_around.
  split; [by apply nearby_mines_tally|]. split; [done|]. split.
  - unfold around. destruct c as [i j]. simpl. set_unfold.
    intros H. destruct_or?; simplify_eq; lia.
  - rewrite <- (mines_among_list b (around c)) by apply NoDup_around.
    pose proof (mines_among_le b (list_to_set (around c))) as Hle.
    rewrite size_list_to_set in Hle by apply NoDup_around.
    change (length (around c)) with 8%nat in Hle. lia.
Qed.

Lemma nearby_mines_counts_witness :
  ∃ n, Minesweeper.nearby_mines board_3x3 (0, 1) = Some n
       ∧ n = Z.of_nat (mines_among board_3x3 (list_to_set (around (0, 1))))
       ∧ (0, 1) ∉ around (0, 1)
       ∧ 0 ≤ n ≤ 8.
Proof.
  apply (nearby_mines_counts board_3x3 (0, 1)).
  split; [reflexivity|]. repeat constructor.
Defined.

(** ** Marking cells in a sentence *)

Section sentence_marks.
Implicit Types (s : Sentence) (c : cell) (S M : gset cell).

Lemma sentence_eq s1 s2 :
  Sentence.cells s1 = Sentence.cells s2 → Sentence.count s1 = Sentence.count s2 →
  s1 = s2.
Proof. destruct s1, s2. simpl. by intros -> ->. Qed.

Lemma mark_mine_count s c :
  Sentence.count (Sentence.mark_mine s c).2
  = Sentence.count s - (if bool_decide (c ∈ Sentence.cells s) then 1 else 0).
Proof. unfold Sentence.mark_mine. case_bool_decide; simpl; lia. Qed.

Lemma size_remove (X : gset cell) c :
  c ∈ X → size X = S (size (X ∖ {[c]})).
Proof.
  intros Hc. rewrite size_difference, size_singleton by set_solver.
  assert (size ({[c]} : gset cell) ≤ size X)%nat
    by (apply subseteq_size; set_solver).
  rewrite size_singleton in *. lia.
Qed.
End sentence_marks.

Lemma sentence_mark_laws (s : Sentence) (c c' : cell) :
  ((Sentence.mark_mine s c).1 = true ↔ c ∈ Sentence.cells s)
  ∧ ((Sentence.mark_safe s c).1 = true ↔ c ∈ Sentence.cells s)
  ∧ (c ∈ Sentence.cells s →
     size (Sentence.cells s) = S (size (Sentence.cells (Sentence.mark_mine s c).2))
     ∧ size (Sentence.cells s) = S (size (Sentence.cells (Sentence.mark_safe s c).2))
     ∧ Sentence.count (Sentence.mark_mine s c).2 = Sentence.count s - 1
     ∧ Sentence.count (Sentence.mark_safe s c).2 = Sentence.count s)
  ∧ (c ∉ Sentence.cells s →
     Sentence.mark_mine s c = (false, s) ∧ Sentence.mark_safe s c = (false, s))
  ∧ (Sentence.mark_mine (Sentence.mark_mine s c).2 c = (false, (Sentence.mark_mine s c).2)
     ∧ Sentence.mark_safe (Sentence.mark_mine s c).2 c = (false, (Sentence.mark_mine s c).2)
     ∧ Sentence.mark_mine (Sentence.mark_safe s c).2 c = (false, (Sentence.mark_safe s c).2)
     ∧ Sentence.mark_safe (Sentence.mark_safe s c).2 c = (false, (Sentence.mark_safe s c).2))
  ∧ ((Sentence.mark_mine (Sentence.mark_mine s c).2 c').2
     = (Sentence.mark_mine (Sentence.mark_mine s c').2 c).2
     ∧ (Sentence.mark_safe (Sentence.mark_safe s c).2 c').2
       = (Sentence.mark_safe (Sentence.mark_safe s c').2 c).2
     ∧ (c ≠ c' →
        (Sentence.mark_mine (Sentence.mark_safe s c).2 c').2
        = (Sentence.mark_safe (Sentence.mark_mine s c').2 c).2)).
Proof.
  assert (Hno : ∀ s0 x, x ∉ Sentence.cells s0 →
            Sentence.mark_mine s0 x = (false, s0)
            ∧ Sentence.mark_safe s0 x = (false, s0)).
  { intros s0 x Hx. unfold Sentence.mark_mine, Sentence.mark_safe.
    by rewrite bool_decide_eq_false_2. }
  split; [|split; [|split; [|split; [|split]]]].
  - unfold Sentence.mark_mine. case_bool_decide; simpl; naive_solver.
  - unfold Sentence.mark_safe. case_bool_decide; simpl; naive_solver.
  - intros Hc. rewrite mark_mine_cells, mark_safe_cells, mark_mine_count,
      mark_safe_count, bool_decide_eq_true_2 by done.
    repeat split; try done; by apply size_remove.
  - apply Hno.
  - repeat split; apply Hno;
      rewrite ?mark_mine_cells, ?mark_safe_cells; set_solver.
  - split; [|split; [|intros Hne]]; apply sentence_eq;
      repeat (rewrite mark_mine_cells || rewrite mark_safe_cells
              || rewrite mark_mine_count || rewrite mark_safe_count);
      try set_solver;
      repeat case_bool_decide; try lia; set_solver.
Qed.

(** X7: [Sentence.mark_mine] and [Sentence.mark_safe] return [True]
    exactly when the cell is in the sentence; the sentence then has one
    cell less (and, for a mine, a count one less), and otherwise is
    unchanged.  A cell is marked once: a second mark of the same cell, of
    either kind, returns [False], and marks of two cells give the same
    sentence in either order. *)
Theorem sentence_mark_once (s : Sentence) (c c' : cell) :
  ((Sentence.mark_mine s c).1 = true ↔ c ∈ Sentence.cells s)
  ∧ ((Sentence.mark_safe s c).1 = true ↔ c ∈ Sentence.cells s)
  ∧ (c ∈ Sentence.cells s →
     size (Sentence.cells s) = S (size (Sentence.cells (Sentence.mark_mine s c).2))
     ∧ size (Sentence.cells s) = S (size (Sentence.cells (Sentence.mark_safe s c).2))
     ∧ Sentence.count (Sentence.mark_mine s c).2 = Sentence.count s - 1
     ∧ Sentence.count (Sentence.mark_safe s c).2 = Sentence.count s)
  ∧ (c ∉ Sentence.cells s →
     Sentence.mark_mine s c = (false, s) ∧ Sentence.mark_safe s c = (false, s))
  ∧ (Sentence.mark_mine (Sentence.mark_mine s c).2 c = (false, (Sentence.mark_mine s c).2)
     ∧ Sentence.mark_safe (Sentence.mark_mine s c).2 c = (false, (Sentence.mark_mine s c).2)
     ∧ Sentence.mark_mine (Sentence.mark_safe s c).2 c = (false, (Sentence.mark_safe s c).2)
     ∧ Sentence.mark_safe (Sentence.mark_safe s c).2 c = (false, (Sentence.mark_safe s c).2))
  ∧ ((Sentence.mark_mine (Sentence.mark_mine s c).2 c').2
     = (Sentence.mark_mine (Sentence.mark_mine s c').2 c).2
     ∧ (Sentence.mark_safe (Sentence.mark_safe s c).2 c').2
       = (Sentence.mark_safe (Sentence.mark_safe s c').2 c).2
     ∧ (c ≠ c' →
        (Sentence.mark_mine (Sentence.mark_safe s c).2 c').2
        = (Sentence.mark_safe (Sentence.mark_mine s c').2 c).2)).
Proof. apply sentence_mark_laws. Qed.

Lemma sentence_mark_once_witness :
  size (Sentence.cells (Sentence.mk {[(0, 0); (0, 1)]} 1))
  = S (size (Sentence.cells
               (Sentence.mark_mine (Sentence.mk {[(0, 0); (0, 1)]} 1) (0, 1)).2))
  ∧ Sentence.mark_mine (Sentence.mk {[(0, 0); (0, 1)]} 1) (1, 1)
    = (false, Sentence.mk {[(0, 0); (0, 1)]} 1).
Proof.
  destruct (sentence_mark_once (Sentence.mk {[(0, 0); (0, 1)]} 1) (0, 1) (0, 0))
    as (_ & _ & H1 & _).
  destruct (sentence_mark_once (Sentence.mk {[(0, 0); (0, 1)]} 1) (1, 1) (0, 0))
    as (_ & _ & _ & H2 & _).
  split.
  - apply H1. compute_done.
  - apply H2. compute_done.
Defined.

(** X8: marking keeps a sentence true of a board exactly when the mark is
    right: a sentence that holds of the board still holds after
    [mark_mine] of a mine of the board and after [mark_safe] of a cell that
    is not one, and it no longer holds after [mark_mine] of a cell of the
    sentence that is not a mine or [mark_safe] of one that is. *)
Theorem marking_keeps_truth (b : Board) (s : Sentence) (c : cell) :
  holds b s →
  (mine_at b c = true → holds b (Sentence.mark_mine s c).2)
  ∧ (mine_at b c = false → holds b (Sentence.mark_safe s c).2)
  ∧ (c ∈ Sentence.cells s → mine_at b c = false →
     ¬ holds b (Sentence.mark_mine s c).2)
  ∧ (c ∈ Sentence.cells s → mine_at b c = true →
     ¬ holds b (Sentence.mark_safe s c).2).
Proof.
  intros Hs. split; [|split; [|split]].
  - intros Hc. by apply holds_mark_mine.
  - intros Hc. by apply holds_mark_safe.
  - intros Hin Hc. unfold holds in *.
    rewrite mark_mine_cells, mark_mine_count, bool_decide_eq_true_2 by done.
    rewrite mines_among_remove_safe by done. lia.
  - intros Hin Hc. unfold holds in *.
    rewrite mark_safe_cells, mark_safe_count.
    rewrite mines_among_remove_mine by done.
    pose proof (mines_among_pos b _ _ Hc Hin). lia.
Qed.

Lemma marking_keeps_truth_witness :
  holds board_1x3 (Sentence.mark_mine (Sentence.mk {[(0, 0); (0, 2)]} 1) (0, 2)).2.
Proof.
  destruct (marking_keeps_truth board_1x3 (Sentence.mk {[(0, 0); (0, 2)]} 1) (0, 2))
    as (H & _).
  - vm_compute. reflexivity.
  - apply H. reflexivity.
Defined.

(** ** The deduction pass as one update *)

Section at_once.
Implicit Types (s : Sentence) (c : cell) (S M : gset cell) (self : AI)
  (l : list cell).

Lemma reduced_nothing s : reduced ∅ ∅ s = s.
Proof.
  apply sentence_eq; unfold reduced; cbn [Sentence.cells Sentence.count].
  - set_solver.
  - replace ((Sentence.cells s ∖ ∅) ∩ (∅ : gset cell)) with (∅ : gset cell)
      by set_solver.
    rewrite size_empty. lia.
Qed.

Lemma reduced_mark_safe S M s c :
  reduced S M (Sentence.mark_safe s c).2 = reduced ({[c]} ∪ S) M s.
Proof.
  apply sentence_eq; unfold reduced; cbn [Sentence.cells Sentence.count];
    rewrite mark_safe_cells, ?mark_safe_count.
  - set_solver.
  - replace ((Sentence.cells s ∖ {[c]} ∖ S) ∩ M)
      with ((Sentence.cells s ∖ ({[c]} ∪ S)) ∩ M) by set_solver.
    done.
Qed.

Lemma reduced_mark_mine M s c :
  reduced ∅ M (Sentence.mark_mine s c).2 = reduced ∅ ({[c]} ∪ M) s.
Proof.
  apply sentence_eq; unfold reduced; cbn [Sentence.cells Sentence.count];
    rewrite mark_mine_cells, ?mark_mine_count.
  - set_solver.
  - replace ((Sentence.cells s ∖ ∅) ∩ ({[c]} ∪ M))
      with ((Sentence.cells s ∩ {[c]}) ∪ ((Sentence.cells s ∖ {[c]} ∖ ∅) ∩ M))
      by (apply set_eq; intros x; destruct (decide (x = c)); set_solver).
    rewrite (size_union (Sentence.cells s ∩ {[c]})) by set_solver.
    case_bool_decide as Hc.
    + assert (Sentence.cells s ∩ {[c]} = {[c]}) as -> by set_solver.
      rewrite size_singleton. lia.
    + assert (Sentence.cells s ∩ {[c]} = ∅) as -> by set_solver.
      rewrite size_empty. lia.
Qed.

Lemma reduced_twice S M s : reduced ∅ M (reduced S ∅ s) = reduced S M s.
Proof.
  apply sentence_eq; unfold reduced; cbn [Sentence.cells Sentence.count].
  - set_solver.
  - replace ((Sentence.cells s ∖ S) ∩ (∅ : gset cell)) with (∅ : gset cell)
      by set_solver.
    rewrite size_empty.
    replace ((Sentence.cells s ∖ (S ∪ ∅) ∖ ∅) ∩ M)
      with ((Sentence.cells s ∖ S) ∩ M) by set_solver.
    lia.
Qed.

Lemma mark_safe_all_closed self l :
  foldl MinesweeperAI.mark_safe self l
  = MinesweeperAI.mk (MinesweeperAI.height self) (MinesweeperAI.width self)
      (MinesweeperAI.moves_made self) (MinesweeperAI.mines self)
      (MinesweeperAI.safes self ∪ list_to_set l)
      (map (reduced (list_to_set l) ∅) (MinesweeperAI.knowledge self)).
Proof.
  revert self. induction l as [|c l IH]; intros self; simpl.
  - destruct self as [h w mv mn sf k]. simpl. f_equal; [set_solver|].
    rewrite <- (map_id k) at 1. apply map_ext. intros s.
    by rewrite reduced_nothing.
  - rewrite IH. simpl. f_equal; [set_solver|].
    rewrite map_map. apply map_ext. intros s.
    apply reduced_mark_safe.
Qed.

Lemma mark_mine_all_closed self l :
  foldl MinesweeperAI.mark_mine self l
  = MinesweeperAI.mk (MinesweeperAI.height self) (MinesweeperAI.width self)
      (MinesweeperAI.moves_made self)
      (MinesweeperAI.mines self ∪ list_to_set l) (MinesweeperAI.safes self)
      (map (reduced ∅ (list_to_set l)) (MinesweeperAI.knowledge self)).
Proof.
  revert self. induction l as [|c l IH]; intros self; simpl.
  - destruct self as [h w mv mn sf k]. simpl. f_equal; [set_solver|].
    rewrite <- (map_id k) at 1. apply map_ext. intros s.
    by rewrite reduced_nothing.
  - rewrite IH. simpl. f_equal; [set_solver|].
    rewrite map_map. apply map_ext. intros s.
    apply reduced_mark_mine.
Qed.

Lemma scan_safes_set self :
  list_to_set (MinesweeperAI.scan self).1 = new_safes self.
Proof.
  apply set_eq. intros c. unfold new_safes.
  rewrite elem_of_list_to_set, scan_safes, elem_of_difference,
    elem_of_union_list.
  setoid_rewrite list_elem_of_fmap. naive_solver.
Qed.

Lemma scan_mines_set self :
  list_to_set (MinesweeperAI.scan self).2 = new_mines self.
Proof.
  apply set_eq. intros c. unfold new_mines.
  rewrite elem_of_list_to_set, scan_mines, elem_of_difference,
    elem_of_union_list.
  setoid_rewrite list_elem_of_fmap. naive_solver.
Qed.
End at_once.

Lemma mark_cells_closed (self : AI) :
  MinesweeperAI.mark_cells self
  = MinesweeperAI.mk (MinesweeperAI.height self) (MinesweeperAI.width self)
      (MinesweeperAI.moves_made self)
      (MinesweeperAI.mines self ∪ new_mines self)
      (MinesweeperAI.safes self ∪ new_safes self)
      (map (reduced (new_safes self) (new_mines self))
           (MinesweeperAI.knowledge self)).
Proof.
  unfold MinesweeperAI.mark_cells. cbv zeta.
  rewrite mark_mine_all_closed, mark_safe_all_closed. simpl.
  rewrite scan_safes_set, scan_mines_set. f_equal.
  rewrite map_map. apply map_ext. intros s. apply reduced_twice.
Qed.

(** ** The deduction pass for any order of visiting a set *)

Section any_order.
Context (visit : gset cell → list cell).
Context (Hvisit : ∀ (X : gset cell) (x : cell), x ∈ visit X ↔ x ∈ X).
Implicit Types (self : AI) (c : cell) (l : list cell).

Lemma collect_in_spec (known : gset cell) (acc : list cell) l c :
  c ∈ collect_in known acc l ↔ c ∈ acc ∨ (c ∈ l ∧ c ∉ known).
Proof using.
  unfold collect_in. revert acc.
  induction l as [|x l IH]; intros acc; simpl.
  - rewrite elem_of_nil. tauto.
  - rewrite IH, elem_of_cons. case_bool_decide as Hx.
    + rewrite elem_of_app, list_elem_of_singleton.
      split; [intros [[?| ->]|?]|intros [?|[[->|?] ?]]]; tauto.
    + split; [tauto|]. intros [?|[[->|?] ?]]; [tauto| |tauto].
      destruct (decide (x ∈ acc)); tauto.
Qed.

Lemma scan_in_from (self : AI) (k : list Sentence) (lists : list cell * list cell) :
  let r :=
    foldl (λ lists sentence,
             (collect_in (MinesweeperAI.safes self) lists.1
                (visit (Sentence.known_safes sentence)),
              collect_in (MinesweeperAI.mines self) lists.2
                (visit (Sentence.known_mines sentence))))
          lists k in
  (∀ c, c ∈ r.1 ↔ c ∈ lists.1 ∨
          (c ∉ MinesweeperAI.safes self ∧ ∃ s, s ∈ k ∧ c ∈ Sentence.known_safes s))
  ∧ (∀ c, c ∈ r.2 ↔ c ∈ lists.2 ∨
          (c ∉ MinesweeperAI.mines self ∧ ∃ s, s ∈ k ∧ c ∈ Sentence.known_mines s)).
Proof using Hvisit.
  revert lists. induction k as [|s k IH]; intros lists; simpl.
  - split; intros c; split; [tauto| |tauto|];
      intros [?|[_ [s [Hs _]]]]; try done; by apply elem_of_nil in Hs.
  - destruct (IH (collect_in (MinesweeperAI.safes self) lists.1
                    (visit (Sentence.known_safes s)),
                  collect_in (MinesweeperAI.mines self) lists.2
                    (visit (Sentence.known_mines s)))) as [IH1 IH2].
    split; intros c; [rewrite IH1|rewrite IH2]; simpl;
      rewrite collect_in_spec, Hvisit; setoid_rewrite elem_of_cons; naive_solver.
Qed.

Lemma scan_in_sets self :
  list_to_set (scan_in visit self).1 = new_safes self
  ∧ list_to_set (scan_in visit self).2 = new_mines self.
Proof using Hvisit.
  unfold scan_in.
  destruct (scan_in_from self (MinesweeperAI.knowledge self) ([], [])) as [H1 H2].
  split; apply set_eq; intros c; unfold new_safes, new_mines;
    rewrite elem_of_list_to_set, ?H1, ?H2, elem_of_difference, elem_of_union_list;
    simpl; rewrite elem_of_nil; setoid_rewrite list_elem_of_fmap; naive_solver.
Qed.

Lemma mark_cells_in_closed self :
  mark_cells_in visit self
  = MinesweeperAI.mk (MinesweeperAI.height self) (MinesweeperAI.width self)
      (MinesweeperAI.moves_made self)
      (MinesweeperAI.mines self ∪ new_mines self)
      (MinesweeperAI.safes self ∪ new_safes self)
      (map (reduced (new_safes self) (new_mines self))
           (MinesweeperAI.knowledge self)).
Proof using Hvisit.
  unfold mark_cells_in. cbv zeta.
  rewrite mark_mine_all_closed, mark_safe_all_closed. simpl.
  destruct (scan_in_sets self) as [-> ->]. f_equal.
  rewrite map_map. apply map_ext. intros s. apply reduced_twice.
Qed.
End any_order.

(** X9: one call of [mark_cells] is one simultaneous update.  With [S] the
    cells of the sentences of count 0 that are not in [safes], and [M] the
    cells of the sentences whose count equals their number of cells that
    are not in [mines], both read off the state before the call, the call
    adds [S] to [safes] and [M] to [mines], and turns every sentence into
    the one with the cells of [S] and [M] removed and the count lowered by
    the number of its cells outside [S] that are in [M]; nothing else
    changes, and no sentence is added or dropped.  The result does not
    depend on the order in which the sets are visited: [mark_cells_in],
    which is [mark_cells] with any enumeration of the members of a set in
    place of the one the model uses, gives the same state. *)
Theorem mark_cells_at_once (self : AI) :
  MinesweeperAI.mark_cells self
  = MinesweeperAI.mk (MinesweeperAI.height self) (MinesweeperAI.width self)
      (MinesweeperAI.moves_made self)
      (MinesweeperAI.mines self ∪ new_mines self)
      (MinesweeperAI.safes self ∪ new_safes self)
      (map (reduced (new_safes self) (new_mines self))
           (MinesweeperAI.knowledge self))
  ∧ mark_cells_in elements self = MinesweeperAI.mark_cells self
  ∧ (∀ visit : gset cell → list cell,
       (∀ (X : gset cell) (x : cell), x ∈ visit X ↔ x ∈ X) →
       mark_cells_in visit self = MinesweeperAI.mark_cells self).
Proof.
  split; [apply mark_cells_closed|]. split; [reflexivity|].
  intros visit Hvisit.
  by rewrite mark_cells_closed, (mark_cells_in_closed visit Hvisit).
Qed.

Lemma mark_cells_at_once_witness :
  mark_cells_in (λ X, reverse (elements X))
    (MinesweeperAI.mk 2 2 ∅ ∅ ∅
       [Sentence.mk {[(0, 0); (0, 1)]} 0; Sentence.mk {[(1, 0); (1, 1)]} 2])
  = MinesweeperAI.mark_cells
      (MinesweeperAI.mk 2 2 ∅ ∅ ∅
         [Sentence.mk {[(0, 0); (0, 1)]} 0; Sentence.mk {[(1, 0); (1, 1)]} 2]).
Proof.
  destruct (mark_cells_at_once
              (MinesweeperAI.mk 2 2 ∅ ∅ ∅
                 [Sentence.mk {[(0, 0); (0, 1)]} 0;
                  Sentence.mk {[(1, 0); (1, 1)]} 2])) as (_ & _ & H).
  apply (H (λ X, reverse (elements X))).
  intros X x. by rewrite elem_of_reverse, elem_of_elements.
Defined.

(** X10: the player's [mark_safe] and [mark_mine] take the cell out of
    every sentence of [knowledge] and keep the number of sentences; doing
    the same mark again changes nothing, and a [mark_safe] and a
    [mark_mine] of two different cells give the same state in either
    order. *)
Theorem player_marks (self : AI) (c c' : cell) :
  (∀ s, s ∈ MinesweeperAI.knowledge (MinesweeperAI.mark_safe self c) →
        c ∉ Sentence.cells s)
  ∧ (∀ s, s ∈ MinesweeperAI.knowledge (MinesweeperAI.mark_mine self c) →
          c ∉ Sentence.cells s)
  ∧ length (MinesweeperAI.knowledge (MinesweeperAI.mark_safe self c))
    = length (MinesweeperAI.knowledge self)
  ∧ length (MinesweeperAI.knowledge (MinesweeperAI.mark_mine self c))
    = length (MinesweeperAI.knowledge self)
  ∧ MinesweeperAI.mark_safe (MinesweeperAI.mark_safe self c) c
    = MinesweeperAI.mark_safe self c
  ∧ MinesweeperAI.mark_mine (MinesweeperAI.mark_mine self c) c
    = MinesweeperAI.mark_mine self c
  ∧ (c ≠ c' →
     MinesweeperAI.mark_mine (MinesweeperAI.mark_safe self c) c'
     = MinesweeperAI.mark_safe (MinesweeperAI.mark_mine self c') c).
Proof.
  split; [apply mark_safe_purges|]. split; [apply mark_mine_purges|].
  split; [simpl; by rewrite length_map|]. split; [simpl; by rewrite length_map|].
  split; [|split; [|intros Hne]]; unfold MinesweeperAI.mark_safe,
    MinesweeperAI.mark_mine; simpl; f_equal; try set_solver;
    rewrite !map_map; apply map_ext; intros s.
  - destruct (sentence_mark_laws s c c) as (_ & _ & _ & _ & (_ & _ & _ & H) & _).
    by rewrite H.
  - destruct (sentence_mark_laws s c c) as (_ & _ & _ & _ & (H & _) & _).
    by rewrite H.
  - destruct (sentence_mark_laws s c c') as (_ & _ & _ & _ & _ & _ & _ & H).
    by apply H.
Qed.

Lemma player_marks_witness :
  MinesweeperAI.mark_mine
    (MinesweeperAI.mark_safe
       (MinesweeperAI.mk 1 3 ∅ ∅ ∅ [Sentence.mk {[(0, 0); (0, 2)]} 1]) (0, 0))
    (0, 2)
  = MinesweeperAI.mark_safe
      (MinesweeperAI.mark_mine
         (MinesweeperAI.mk 1 3 ∅ ∅ ∅ [Sentence.mk {[(0, 0); (0, 2)]} 1]) (0, 2))
      (0, 0).
Proof.
  destruct (player_marks
              (MinesweeperAI.mk 1 3 ∅ ∅ ∅ [Sentence.mk {[(0, 0); (0, 2)]} 1])
              (0, 0) (0, 2)) as (_ & _ & _ & _ & _ & _ & H).
  apply H. discriminate.
Defined.

Section normalise.
Implicit Types (s : Sentence) (c : cell) (M : gset cell) (self : AI).

Lemma strip_mines_closed M s : MinesweeperAI.strip_mines M s = reduced ∅ M s.
Proof.
  unfold MinesweeperAI.strip_mines.
  rewrite <- (list_to_set_elements_L M) at 2.
  generalize (elements M) as l. intros l. revert s.
  induction l as [|c l IH]; intros s; simpl.
  - by rewrite reduced_nothing.
  - rewrite <- reduced_mark_mine, <- IH. f_equal.
    case_bool_decide as Hc; [done|].
    unfold Sentence.mark_mine. by rewrite bool_decide_eq_false_2.
Qed.

Lemma reduced_again M s : reduced ∅ M (reduced ∅ M s) = reduced ∅ M s.
Proof.
  apply sentence_eq; unfold reduced; cbn [Sentence.cells Sentence.count].
  - set_solver.
  - replace ((Sentence.cells s ∖ (∅ ∪ M) ∖ ∅) ∩ M) with (∅ : gset cell)
      by set_solver.
    rewrite size_empty. lia.
Qed.
End normalise.

Lemma update_new_closed (self : AI) (s : Sentence) :
  (MinesweeperAI.knowledge self = [] → MinesweeperAI.update_new self s = s)
  ∧ (MinesweeperAI.knowledge self ≠ [] →
     MinesweeperAI.update_new self s
     = Sentence.mk (Sentence.cells s ∖ MinesweeperAI.mines self)
         (Sentence.count s
          - Z.of_nat (size (Sentence.cells s ∩ MinesweeperAI.mines self)))).
Proof.
  unfold MinesweeperAI.update_new. split; [by intros ->|].
  intros Hk.
  assert (Hred : ∀ M, reduced ∅ M s
            = Sentence.mk (Sentence.cells s ∖ M)
                (Sentence.count s - Z.of_nat (size (Sentence.cells s ∩ M)))).
  { intros M. apply sentence_eq; unfold reduced;
      cbn [Sentence.cells Sentence.count]; [set_solver|].
    replace ((Sentence.cells s ∖ ∅) ∩ M) with (Sentence.cells s ∩ M)
      by set_solver.
    done. }
  rewrite <- Hred.
  destruct (MinesweeperAI.knowledge self) as [|s0 k]; [done|]. clear Hk Hred.
  simpl. rewrite strip_mines_closed.
  induction k as [|s1 k IH]; simpl; [done|].
  by rewrite strip_mines_closed, reduced_again.
Qed.

(** X11: the loop that updates [newSentence] for the known mines takes out
    of it exactly the cells that are in [mines] and lowers its count by
    their number, provided [knowledge] holds at least one sentence: the
    loop over [mines] sits inside a loop over [knowledge], so with an empty
    [knowledge] the sentence is left as built, known mines included. *)
Theorem update_new_removes_known_mines (self : AI) (s : Sentence) :
  (MinesweeperAI.knowledge self = [] → MinesweeperAI.update_new self s = s)
  ∧ (MinesweeperAI.knowledge self ≠ [] →
     MinesweeperAI.update_new self s
     = Sentence.mk (Sentence.cells s ∖ MinesweeperAI.mines self)
         (Sentence.count s
          - Z.of_nat (size (Sentence.cells s ∩ MinesweeperAI.mines self)))).
Proof. apply update_new_closed. Qed.

Lemma update_new_removes_known_mines_witness :
  MinesweeperAI.update_new
    (MinesweeperAI.mk 1 3 ∅ {[(0, 2)]} ∅ [Sentence.mk ∅ 0])
    (Sentence.mk {[(0, 1); (0, 2)]} 1)
  = Sentence.mk ({[(0, 1); (0, 2)]} ∖ {[(0, 2)]})
      (1 - Z.of_nat (size (({[(0, 1); (0, 2)]} : gset cell) ∩ {[(0, 2)]}))).
Proof.
  destruct (update_new_removes_known_mines
              (MinesweeperAI.mk 1 3 ∅ {[(0, 2)]} ∅ [Sentence.mk ∅ 0])
              (Sentence.mk {[(0, 1); (0, 2)]} 1)) as [_ H].
  apply H. discriminate.
Defined.

(** ** The neighbours of a cell *)

Section neighbours.
Implicit Types (c x : cell) (self : AI).

Lemma NoDup_neighbors self c : NoDup (MinesweeperAI.neighbors self c).
Proof.
  unfold MinesweeperAI.neighbors.
  repeat case_bool_decide; simpl;
    repeat (apply NoDup_cons; split;
            [set_unfold; intros Hin; destruct_or?; simplify_eq; lia|]);
    apply NoDup_nil_2.
Qed.

Lemma neighbors_exact_in self c x :
  0 ≤ c.1 < MinesweeperAI.height self → 0 ≤ c.2 < MinesweeperAI.width self →
  x ∈ MinesweeperAI.neighbors self c ↔
  (0 ≤ x.1 < MinesweeperAI.height self ∧ 0 ≤ x.2 < MinesweeperAI.width self)
  ∧ x ≠ c ∧ -1 ≤ x.1 - c.1 ≤ 1 ∧ -1 ≤ x.2 - c.2 ≤ 1.
Proof.
  intros Hi Hj. destruct c as [i j], x as [i' j']. simpl in *.
  unfold MinesweeperAI.neighbors. simpl. split.
  - repeat case_bool_decide; set_unfold; intros Hin; destruct_or?;
      simplify_eq; (split; [lia|split; [intros [=]; lia|lia]]).
  - intros (Hin & Hne & Hdi & Hdj).
    assert (Hcases : (i' = i - 1 ∨ i' = i ∨ i' = i + 1)
                     ∧ (j' = j - 1 ∨ j' = j ∨ j' = j + 1)) by lia.
    destruct Hcases as [Hci Hcj].
    repeat case_bool_decide; set_unfold; destruct_or?; simplify_eq;
      first [lia | done | tauto].
Qed.
End neighbours.

(** X12: the list of neighbours that [add_knowledge] builds for a cell of
    the grid has no repeats and holds exactly the cells of the grid that
    touch the cell (one step away in row and column, the cell itself left
    out); at a border or a corner the cells off the grid are left out. *)
Theorem neighbors_exact (self : AI) (c x : cell) :
  0 ≤ c.1 < MinesweeperAI.height self → 0 ≤ c.2 < MinesweeperAI.width self →
  NoDup (MinesweeperAI.neighbors self c)
  ∧ (x ∈ MinesweeperAI.neighbors self c ↔
     (0 ≤ x.1 < MinesweeperAI.height self ∧ 0 ≤ x.2 < MinesweeperAI.width self)
     ∧ x ≠ c ∧ -1 ≤ x.1 - c.1 ≤ 1 ∧ -1 ≤ x.2 - c.2 ≤ 1).
Proof.
  intros Hi Hj. split; [apply NoDup_neighbors|by apply neighbors_exact_in].
Qed.

Lemma neighbors_exact_witness :
  NoDup (MinesweeperAI.neighbors (MinesweeperAI.init 2 3) (0, 0))
  ∧ ((1, 1) ∈ MinesweeperAI.neighbors (MinesweeperAI.init 2 3) (0, 0) ↔
     (0 ≤ 1 < 2 ∧ 0 ≤ 1 < 3) ∧ (1, 1) ≠ (0, 0) ∧ -1 ≤ 1 - 0 ≤ 1 ∧ -1 ≤ 1 - 0 ≤ 1).
Proof.
  apply (neighbors_exact (MinesweeperAI.init 2 3) (0, 0) (1, 1)); simpl; lia.
Defined.

(** ** What a call of [add_knowledge] changes *)

Section frame.
Implicit Types (c x : cell) (self : AI) (s : Sentence) (k : list Sentence).

Lemma mark_cells_frame self :
  MinesweeperAI.height (MinesweeperAI.mark_cells self) = MinesweeperAI.height self
  ∧ MinesweeperAI.width (MinesweeperAI.mark_cells self) = MinesweeperAI.width self
  ∧ MinesweeperAI.moves_made (MinesweeperAI.mark_cells self)
    = MinesweeperAI.moves_made self.
Proof. by rewrite mark_cells_closed. Qed.

Lemma add_sentence_frame self c n :
  MinesweeperAI.height (MinesweeperAI.add_sentence self c n) = MinesweeperAI.height self
  ∧ MinesweeperAI.width (MinesweeperAI.add_sentence self c n) = MinesweeperAI.width self
  ∧ MinesweeperAI.moves_made (MinesweeperAI.add_sentence self c n)
    = MinesweeperAI.moves_made self ∪ {[c]}
  ∧ c ∈ MinesweeperAI.safes (MinesweeperAI.add_sentence self c n).
Proof.
  unfold MinesweeperAI.add_sentence. case_bool_decide; simpl;
    (split; [done|split; [done|split; [done|set_solver]]]).
Qed.

Lemma add_knowledge_frame_all self c n :
  MinesweeperAI.height (MinesweeperAI.add_knowledge self c n)
  = MinesweeperAI.height self
  ∧ MinesweeperAI.width (MinesweeperAI.add_knowledge self c n)
    = MinesweeperAI.width self
  ∧ MinesweeperAI.moves_made (MinesweeperAI.add_knowledge self c n)
    = MinesweeperAI.moves_made self ∪ {[c]}
  ∧ c ∈ MinesweeperAI.safes (MinesweeperAI.add_knowledge self c n).
Proof.
  destruct (add_sentence_frame self c n) as (Hh & Hw & Hm & Hs).
  destruct (add_knowledge_grows self c n) as [Hsafes _].
  unfold MinesweeperAI.add_knowledge in *.
  destruct (mark_cells_frame
              (MinesweeperAI.resolve
                 (MinesweeperAI.mark_cells (MinesweeperAI.add_sentence self c n))))
    as (-> & -> & ->).
  simpl.
  destruct (mark_cells_frame (MinesweeperAI.add_sentence self c n))
    as (-> & -> & ->).
  split; [done|]. split; [done|]. split; [done|].
  destruct (mark_cells_grows
              (MinesweeperAI.resolve
                 (MinesweeperAI.mark_cells (MinesweeperAI.add_sentence self c n))))
    as [H2 _].
  destruct (mark_cells_grows (MinesweeperAI.add_sentence self c n)) as [H1 _].
  apply H2. simpl. by apply H1.
Qed.

Lemma shrunk_refl k : shrunk k k.
Proof. intros i s Hs. exists s. split; [done|]. split; [done|lia]. Qed.

Lemma shrunk_trans k1 k2 k3 : shrunk k1 k2 → shrunk k2 k3 → shrunk k1 k3.
Proof.
  intros H12 H23 i s Hs.
  destruct (H12 i s Hs) as (s2 & Hs2 & Hc2 & Hn2).
  destruct (H23 i s2 Hs2) as (s3 & Hs3 & Hc3 & Hn3).
  exists s3. split; [done|]. split; [set_solver|lia].
Qed.

Lemma shrunk_app k l : shrunk k (k ++ l).
Proof.
  intros i s Hs. exists s. split; [by apply lookup_app_l_Some|].
  split; [done|lia].
Qed.

Lemma shrunk_mark_cells self :
  shrunk (MinesweeperAI.knowledge self)
         (MinesweeperAI.knowledge (MinesweeperAI.mark_cells self)).
Proof.
  rewrite mark_cells_closed. simpl. intros i s Hs.
  exists (reduced (new_safes self) (new_mines self) s). split.
  - change (map ?f ?l) with (f <$> l). by rewrite list_lookup_fmap, Hs.
  - unfold reduced. simpl. split; [set_solver|lia].
Qed.

Lemma shrunk_length k k' : shrunk k k' → (length k ≤ length k')%nat.
Proof.
  intros Hsh. destruct (decide (length k ≤ length k')%nat) as [|Hlt]; [done|].
  destruct (lookup_lt_is_Some_2 k (length k')) as [s Hs]; [lia|].
  destruct (Hsh _ _ Hs) as (s' & Hs' & _).
  apply lookup_lt_Some in Hs'. lia.
Qed.
End frame.

Lemma add_knowledge_frame_calls :
  (∀ (self : AI) (c : cell) (n : Z),
     MinesweeperAI.height (MinesweeperAI.add_knowledge self c n)
     = MinesweeperAI.height self
     ∧ MinesweeperAI.width (MinesweeperAI.add_knowledge self c n)
       = MinesweeperAI.width self
     ∧ MinesweeperAI.moves_made (MinesweeperAI.add_knowledge self c n)
       = MinesweeperAI.moves_made self ∪ {[c]}
     ∧ c ∈ MinesweeperAI.safes (MinesweeperAI.add_knowledge self c n))
  ∧ (∀ (h w : Z) (calls : list (cell * Z)),
       MinesweeperAI.moves_made
         (MinesweeperAI.observe_all (MinesweeperAI.init h w) calls)
       = list_to_set calls.*1
       ∧ MinesweeperAI.moves_made
           (MinesweeperAI.observe_all (MinesweeperAI.init h w) calls)
         ⊆ MinesweeperAI.safes
             (MinesweeperAI.observe_all (MinesweeperAI.init h w) calls)).
Proof.
  split; [apply add_knowledge_frame_all|].
  intros h w calls.
  assert (Hgen : ∀ self,
    MinesweeperAI.moves_made self ⊆ MinesweeperAI.safes self →
    MinesweeperAI.moves_made (MinesweeperAI.observe_all self calls)
    = MinesweeperAI.moves_made self ∪ list_to_set calls.*1
    ∧ MinesweeperAI.moves_made (MinesweeperAI.observe_all self calls)
      ⊆ MinesweeperAI.safes (MinesweeperAI.observe_all self calls)).
  { induction calls as [|[c n] calls IH]; intros self Hself; simpl.
    - split; [set_solver|done].
    - destruct (add_knowledge_frame_all self c n) as (_ & _ & Hm & Hs).
      destruct (add_knowledge_grows self c n) as [Hgrow _].
      destruct (IH (MinesweeperAI.add_knowledge self c n)) as [IH1 IH2].
      + rewrite Hm. set_solver.
      + split; [|done]. rewrite IH1, Hm. set_solver. }
  destruct (Hgen (MinesweeperAI.init h w)) as [H1 H2]; [done|].
  split; [|done]. rewrite H1. simpl. set_solver.
Qed.

(** X13: a call of [add_knowledge] leaves [height] and [width] as they
    are, adds the cell to [moves_made] and nothing else, and the cell is in
    [safes] afterwards; after a sequence of calls on a fresh player
    [moves_made] is exactly the set of the cells the calls were for, and
    all of them are in [safes]. *)
Theorem add_knowledge_frame :
  (∀ (self : AI) (c : cell) (n : Z),
     MinesweeperAI.height (MinesweeperAI.add_knowledge self c n)
     = MinesweeperAI.height self
     ∧ MinesweeperAI.width (MinesweeperAI.add_knowledge self c n)
       = MinesweeperAI.width self
     ∧ MinesweeperAI.moves_made (MinesweeperAI.add_knowledge self c n)
       = MinesweeperAI.moves_made self ∪ {[c]}
     ∧ c ∈ MinesweeperAI.safes (MinesweeperAI.add_knowledge self c n))
  ∧ (∀ (h w : Z) (calls : list (cell * Z)),
       MinesweeperAI.moves_made
         (MinesweeperAI.observe_all (MinesweeperAI.init h w) calls)
       = list_to_set calls.*1
       ∧ MinesweeperAI.moves_made
           (MinesweeperAI.observe_all (MinesweeperAI.init h w) calls)
         ⊆ MinesweeperAI.safes
             (MinesweeperAI.observe_all (MinesweeperAI.init h w) calls)).
Proof. apply add_knowledge_frame_calls. Qed.

(** X14: [add_knowledge] never drops or moves a sentence: every sentence
    that was in [knowledge] is still at its place afterwards, with a subset
    of its cells and a count that is not greater, and [knowledge] is at
    least as long as before. *)
Theorem knowledge_only_grows (self : AI) (c : cell) (n : Z) :
  shrunk (MinesweeperAI.knowledge self)
         (MinesweeperAI.knowledge (MinesweeperAI.add_knowledge self c n))
  ∧ (length (MinesweeperAI.knowledge self)
     ≤ length (MinesweeperAI.knowledge (MinesweeperAI.add_knowledge self c n)))%nat.
Proof.
  assert (Hsh : shrunk (MinesweeperAI.knowledge self)
                  (MinesweeperAI.knowledge (MinesweeperAI.add_knowledge self c n))).
  { unfold MinesweeperAI.add_knowledge.
    eapply shrunk_trans; [|apply shrunk_mark_cells].
    unfold MinesweeperAI.resolve at 1. cbn [MinesweeperAI.knowledge MinesweeperAI.set_knowledge].
    eapply shrunk_trans; [|apply shrunk_app].
    eapply shrunk_trans; [|apply shrunk_mark_cells].
    unfold MinesweeperAI.add_sentence. case_bool_decide; simpl.
    - apply shrunk_refl.
    - apply shrunk_app. }
  split; [done|]. by apply shrunk_length.
Qed.

(** ** Counts that settle all the neighbours *)

Section settled.
Implicit Types (c x : cell) (self : AI) (s : Sentence).

Lemma not_own_neighbor self c : c ∉ MinesweeperAI.neighbors self c.
Proof.
  intros Hc%neighbors_around. unfold around in Hc. destruct c as [i j].
  simpl in Hc. set_unfold. destruct_or?; simplify_eq; lia.
Qed.

Lemma unknown_neighbours self c :
  filter (λ y, y ∉ MinesweeperAI.safes self ∪ {[c]}) (MinesweeperAI.neighbors self c)
  = filter (λ y, y ∉ MinesweeperAI.safes self) (MinesweeperAI.neighbors self c).
Proof.
  pose proof (not_own_neighbor self c) as Hc. revert Hc.
  generalize (MinesweeperAI.neighbors self c) as l.
  induction l as [|y l IH]; intros Hc; [done|].
  rewrite !filter_cons, IH by set_solver.
  assert (y ≠ c) by set_solver.
  repeat case_decide; try done; set_solver.
Qed.

(** The sentence built for [c] is in [knowledge] after lines 201-243 when
    no neighbour is a known mine. *)
Lemma new_sentence_recorded self c n :
  (∀ y, y ∈ MinesweeperAI.neighbors self c → y ∉ MinesweeperAI.mines self) →
  Sentence.mk
    (list_to_set (filter (λ y, y ∉ MinesweeperAI.safes self)
                         (MinesweeperAI.neighbors self c))) n
  ∈ MinesweeperAI.knowledge (MinesweeperAI.add_sentence self c n).
Proof.
  intros Hfree. unfold MinesweeperAI.add_sentence.
  cbn [MinesweeperAI.safes MinesweeperAI.knowledge].
  change (MinesweeperAI.neighbors
            (MinesweeperAI.mk (MinesweeperAI.height self) (MinesweeperAI.width self)
               (MinesweeperAI.moves_made self ∪ {[c]}) (MinesweeperAI.mines self)
               (MinesweeperAI.safes self ∪ {[c]}) (MinesweeperAI.knowledge self)) c)
    with (MinesweeperAI.neighbors self c).
  rewrite unknown_neighbours.
  set (N := Sentence.mk _ n).
  match goal with
  | |- context [MinesweeperAI.update_new ?a N] =>
      assert (Hupd : MinesweeperAI.update_new a N = N)
  end.
  { match goal with
    | |- MinesweeperAI.update_new ?a N = N =>
        destruct (update_new_closed a N) as [Hnil Hcons];
        destruct (decide (MinesweeperAI.knowledge a = [])) as [Hk|Hk]
    end; [by apply Hnil|].
    rewrite (Hcons Hk). cbn [MinesweeperAI.mines].
    assert (Hdisj : Sentence.cells N ∩ MinesweeperAI.mines self = ∅).
    { apply set_eq. intros y. unfold N. cbn [Sentence.cells].
      rewrite elem_of_intersection, elem_of_list_to_set, list_elem_of_filter.
      split; [|set_solver]. intros [[_ Hy] Hm]. by apply Hfree in Hy. }
    apply sentence_eq; cbn [Sentence.cells Sentence.count].
    - set_solver.
    - rewrite Hdisj, size_empty. unfold N. simpl. lia. }
  rewrite Hupd. case_bool_decide as Hin; [done|].
  cbn [MinesweeperAI.knowledge MinesweeperAI.set_knowledge]. set_solver.
Qed.

Lemma first_pass_stays self c n :
  MinesweeperAI.safes (MinesweeperAI.mark_cells (MinesweeperAI.add_sentence self c n))
    ⊆ MinesweeperAI.safes (MinesweeperAI.add_knowledge self c n)
  ∧ MinesweeperAI.mines (MinesweeperAI.mark_cells (MinesweeperAI.add_sentence self c n))
    ⊆ MinesweeperAI.mines (MinesweeperAI.add_knowledge self c n).
Proof.
  unfold MinesweeperAI.add_knowledge.
  destruct (mark_cells_grows
              (MinesweeperAI.resolve
                 (MinesweeperAI.mark_cells (MinesweeperAI.add_sentence self c n))))
    as [Hs Hm].
  by split.
Qed.
End settled.

(** X15: a count of 0 settles all the neighbours: when none of the
    neighbours of the cell is a known mine, after [add_knowledge(cell, 0)]
    every neighbour of the cell is in [safes]. *)
Theorem zero_count_clears_neighbours (self : AI) (c x : cell) :
  (∀ y, y ∈ MinesweeperAI.neighbors self c → y ∉ MinesweeperAI.mines self) →
  x ∈ MinesweeperAI.neighbors self c →
  x ∈ MinesweeperAI.safes (MinesweeperAI.add_knowledge self c 0).
Proof.
  intros Hfree Hx. apply (first_pass_stays self c 0).
  apply mark_cells_safes.
  destruct (decide (x ∈ MinesweeperAI.safes self)) as [Hsafe|Hnew].
  - left. by apply add_sentence_grows.
  - right. eexists. split; [by apply new_sentence_recorded|].
    unfold Sentence.known_safes. cbn [Sentence.cells Sentence.count].
    rewrite bool_decide_eq_true_2 by done.
    apply elem_of_list_to_set, list_elem_of_filter. done.
Qed.

Lemma zero_count_clears_neighbours_witness :
  (0, 1) ∈ MinesweeperAI.safes
             (MinesweeperAI.add_knowledge (MinesweeperAI.init 1 2) (0, 0) 0).
Proof.
  apply (zero_count_clears_neighbours (MinesweeperAI.init 1 2) (0, 0) (0, 1)).
  - intros y _. simpl. apply not_elem_of_empty.
  - compute_done.
Defined.

(** X16: a count equal to the number of neighbours not known to be safe
    settles them all: when none of the neighbours of the cell is a known
    mine and the count is the number of its neighbours that are not in
    [safes], after [add_knowledge] every such neighbour is in [mines]. *)
Theorem full_count_marks_neighbours (self : AI) (c x : cell) (n : Z) :
  (∀ y, y ∈ MinesweeperAI.neighbors self c → y ∉ MinesweeperAI.mines self) →
  n = Z.of_nat (length (filter (λ y, y ∉ MinesweeperAI.safes self)
                               (MinesweeperAI.neighbors self c))) →
  x ∈ MinesweeperAI.neighbors self c →
  x ∉ MinesweeperAI.safes self →
  x ∈ MinesweeperAI.mines (MinesweeperAI.add_knowledge self c n).
Proof.
  intros Hfree Hn Hx Hnew. apply (first_pass_stays self c n).
  apply mark_cells_mines. right.
  eexists. split; [by apply new_sentence_recorded|].
  unfold Sentence.known_mines. cbn [Sentence.cells Sentence.count].
  rewrite size_list_to_set by apply NoDup_filter, NoDup_neighbors.
  rewrite bool_decide_eq_true_2 by done.
  apply elem_of_list_to_set, list_elem_of_filter. done.
Qed.

Lemma full_count_marks_neighbours_witness :
  (0, 1) ∈ MinesweeperAI.mines
             (MinesweeperAI.add_knowledge (MinesweeperAI.init 1 2) (0, 0) 1).
Proof.
  apply (full_count_marks_neighbours (MinesweeperAI.init 1 2) (0, 0) (0, 1) 1).
  - intros y _. simpl. apply not_elem_of_empty.
  - vm_compute. reflexivity.
  - compute_done.
  - simpl. apply not_elem_of_empty.
Defined.

(** ** The deductions are true of every board the sentences are true of *)

Section deductions.
Context (b : Board).
Implicit Types (c x : cell) (self : AI) (s : Sentence) (S M : gset cell).

Lemma holds_reduced S M s :
  (∀ c, c ∈ S → mine_at b c = false) → (∀ c, c ∈ M → mine_at b c = true) →
  holds b s → holds b (reduced S M s).
Proof.
  intros HS HM Hs. unfold holds, reduced in *.
  cbn [Sentence.cells Sentence.count]. rewrite Hs. unfold mines_among.
  assert (Hsub : (Sentence.cells s ∖ S) ∩ M
                 ⊆ filter (λ c, mine_at b c = true) (Sentence.cells s)).
  { intros c [[Hc _]%elem_of_difference Hm]%elem_of_intersection.
    apply elem_of_filter. split; [by apply HM|done]. }
  assert (Heq : filter (λ c, mine_at b c = true) (Sentence.cells s ∖ (S ∪ M))
                = filter (λ c, mine_at b c = true) (Sentence.cells s)
                  ∖ ((Sentence.cells s ∖ S) ∩ M)).
  { apply set_eq. intros c.
    rewrite elem_of_difference, !elem_of_filter, elem_of_difference,
      elem_of_union, elem_of_intersection, elem_of_difference.
    split.
    - intros (Hm & Hc & Hn). split; [done|]. intros [_ ?]. tauto.
    - intros ((Hm & Hc) & Hn). split; [done|]. split; [done|].
      intros [Hs'|Hm'].
      + apply HS in Hs'. congruence.
      + apply Hn. split; [|done]. split; [done|].
        intros Hs'. apply HS in Hs'. congruence. }
  rewrite Heq,
    (size_difference (filter (λ c, mine_at b c = true) (Sentence.cells s)))
    by done.
  apply subseteq_size in Hsub. lia.
Qed.

Lemma new_safes_sound self :
  (∀ s, s ∈ MinesweeperAI.knowledge self → holds b s) →
  ∀ c, c ∈ new_safes self → mine_at b c = false.
Proof.
  intros Hk c [Hc _]%elem_of_difference.
  apply elem_of_union_list in Hc as (X & HX & Hc).
  apply list_elem_of_fmap in HX as (s & -> & Hs).
  eapply holds_known_safes; eauto.
Qed.

Lemma new_mines_sound self :
  (∀ s, s ∈ MinesweeperAI.knowledge self → holds b s) →
  ∀ c, c ∈ new_mines self → mine_at b c = true.
Proof.
  intros Hk c [Hc _]%elem_of_difference.
  apply elem_of_union_list in Hc as (X & HX & Hc).
  apply list_elem_of_fmap in HX as (s & -> & Hs).
  eapply holds_known_mines; eauto.
Qed.
End deductions.

(** X17: the two inference rules are sound for every board, whatever
    [safes] and [mines] hold: when all the sentences of [knowledge] are
    true of a board, every cell that [mark_cells] adds to [mines] is a mine
    of that board, every cell it adds to [safes] is not, and all the
    sentences of [knowledge] after [mark_cells], and after the resolution
    pass, are true of the board again. *)
Theorem deductions_are_sound (b : Board) (self : AI) :
  (∀ s, s ∈ MinesweeperAI.knowledge self → holds b s) →
  (∀ c, c ∈ MinesweeperAI.mines (MinesweeperAI.mark_cells self) →
        c ∈ MinesweeperAI.mines self ∨ mine_at b c = true)
  ∧ (∀ c, c ∈ MinesweeperAI.safes (MinesweeperAI.mark_cells self) →
          c ∈ MinesweeperAI.safes self ∨ mine_at b c = false)
  ∧ (∀ s, s ∈ MinesweeperAI.knowledge (MinesweeperAI.mark_cells self) → holds b s)
  ∧ (∀ s, s ∈ MinesweeperAI.knowledge (MinesweeperAI.resolve self) → holds b s).
Proof.
  intros Hk.
  pose proof (new_safes_sound b self Hk) as HS.
  pose proof (new_mines_sound b self Hk) as HM.
  rewrite mark_cells_closed. cbn [MinesweeperAI.mines MinesweeperAI.safes
                                   MinesweeperAI.knowledge].
  split; [|split; [|split]].
  - intros c [?|?]%elem_of_union; auto.
  - intros c [?|?]%elem_of_union; auto.
  - intros s (s0 & -> & Hs0)%list_elem_of_fmap. apply holds_reduced; auto.
  - unfold MinesweeperAI.resolve.
    cbn [MinesweeperAI.knowledge MinesweeperAI.set_knowledge].
    intros s [?|Hnew]%elem_of_app; [auto|].
    apply new_sentences_spec in Hnew as (A & B & HA & HB & _ & Hsub & -> & _).
    apply holds_difference; auto.
Qed.

Lemma deductions_are_sound_witness :
  (0, 2) ∈ (∅ : gset cell) ∨ mine_at board_1x3 (0, 2) = true.
Proof.
  destruct (deductions_are_sound board_1x3
              (MinesweeperAI.mk 1 3 ∅ ∅ ∅ [Sentence.mk {[(0, 2)]} 1])) as [H _].
  - intros s Hs. apply list_elem_of_singleton in Hs. subst s.
    vm_compute. reflexivity.
  - apply H. compute_done.
Defined.

(** ** Choosing a safe move *)

Section safe_move.

Lemma first_some_list {A B} (f : A → option B) (l : list A) :
  (∀ y, MinesweeperAI.first_some f l = Some y → ∃ x, x ∈ l ∧ f x = Some y)
  ∧ (MinesweeperAI.first_some f l = None ↔ ∀ x, x ∈ l → f x = None).
Proof.
  induction l as [|a l [IHs IHn]]; simpl.
  - split; [done|]. split; [|done]. intros _ x Hx. by apply elem_of_nil in Hx.
  - destruct (f a) as [y0|] eqn:Ha.
    + split.
      * intros y [= <-]. exists a. split; [set_solver|done].
      * split; [done|]. intros H. specialize (H a). rewrite Ha in H.
        discriminate H. set_solver.
    + split.
      * intros y Hy. destruct (IHs y Hy) as (x & Hx & Hfx).
        exists x. split; [set_solver|done].
      * rewrite IHn. split.
        -- intros H x [->|Hx]%elem_of_cons; auto.
        -- intros H x Hx. apply H. set_solver.
Qed.
End safe_move.

Lemma make_safe_move_found (self : AI) :
  (∀ c, MinesweeperAI.make_safe_move self = Some c →
        c ∈ MinesweeperAI.safes self ∧ c ∉ MinesweeperAI.moves_made self)
  ∧ (MinesweeperAI.make_safe_move self = None ↔
     MinesweeperAI.safes self ⊆ MinesweeperAI.moves_made self).
Proof.
  unfold MinesweeperAI.make_safe_move.
  match goal with
  | |- context [MinesweeperAI.first_some ?f ?l] =>
      destruct (first_some_list f l) as [Hs Hn]
  end.
  split.
  - intros c Hc. destruct (Hs c Hc) as (x & Hx & Hfx).
    apply elem_of_elements in Hx. case_bool_decide; [|done].
    injection Hfx as <-. done.
  - rewrite Hn. split.
    + intros H x Hx. specialize (H x). rewrite elem_of_elements in H.
      specialize (H Hx). by case_bool_decide as Hm.
    + intros Hsub x Hx%elem_of_elements.
      rewrite bool_decide_eq_false_2; [done|]. intros Hm. apply Hm. by apply Hsub.
Qed.

(** X18: [make_safe_move] returns a cell of [safes] that is not in
    [moves_made], and returns [None] exactly when every cell of [safes] is
    in [moves_made]. *)
Theorem make_safe_move_spec (self : AI) :
  (∀ c, MinesweeperAI.make_safe_move self = Some c →
        c ∈ MinesweeperAI.safes self ∧ c ∉ MinesweeperAI.moves_made self)
  ∧ (MinesweeperAI.make_safe_move self = None ↔
     MinesweeperAI.safes self ⊆ MinesweeperAI.moves_made self).
Proof. apply make_safe_move_found. Qed.

Lemma make_safe_move_spec_witness :
  (0, 1) ∈ MinesweeperAI.safes
             (MinesweeperAI.add_knowledge (MinesweeperAI.init 1 2) (0, 0) 0)
  ∧ (0, 1) ∉ MinesweeperAI.moves_made
               (MinesweeperAI.add_knowledge (MinesweeperAI.init 1 2) (0, 0) 0).
Proof.
  destruct (make_safe_move_spec
              (MinesweeperAI.add_knowledge (MinesweeperAI.init 1 2) (0, 0) 0))
    as [H _].
  apply H. vm_compute. reflexivity.
Defined.

(** ** A safe move is safe *)

Section on_the_board.
Context (b : Board).
Implicit Types (c x : cell) (self : AI) (s : Sentence).

Lemma on_board_mark_cells self :
  on_board b self → on_board b (MinesweeperAI.mark_cells self).
Proof.
  intros [Hs Hk]. rewrite mark_cells_closed. split; simpl.
  - intros c [?|[Hc _]%elem_of_difference]%elem_of_union; [auto|].
    apply elem_of_union_list in Hc as (X & HX & Hc).
    apply list_elem_of_fmap in HX as (s & -> & Hin).
    apply (Hk s c Hin). by apply known_safes_subseteq.
  - intros s c (s0 & -> & Hin)%list_elem_of_fmap Hc.
    apply (Hk s0 c Hin). unfold reduced in Hc. simpl in Hc. set_solver.
Qed.

Lemma on_board_resolve self :
  on_board b self → on_board b (MinesweeperAI.resolve self).
Proof.
  intros [Hs Hk]. split; simpl; [done|].
  intros s c [?|Hnew]%elem_of_app Hc; [eauto|].
  apply new_sentences_spec in Hnew as (A & B & _ & HB & _ & _ & -> & _).
  apply (Hk B c HB). simpl in Hc. set_solver.
Qed.

Lemma on_board_add_sentence self c n :
  MinesweeperAI.height self = Minesweeper.height b →
  MinesweeperAI.width self = Minesweeper.width b →
  inside b c → on_board b self →
  on_board b (MinesweeperAI.add_sentence self c n).
Proof.
  intros Hh Hw Hc [Hs Hk].
  assert (Hs' : ∀ x, x ∈ MinesweeperAI.safes self ∪ {[c]} → inside b x).
  { intros x [?| ->%elem_of_singleton]%elem_of_union; auto. }
  unfold MinesweeperAI.add_sentence.
  case_bool_decide as Hold; (split; simpl; [done|]); [done|].
  intros s x [?| ->%list_elem_of_singleton]%elem_of_app Hx; [eauto|].
  match type of Hx with
  | x ∈ Sentence.cells (MinesweeperAI.update_new ?a ?N) =>
      assert (Hsub : Sentence.cells (MinesweeperAI.update_new a N)
                     ⊆ Sentence.cells N);
      [destruct (update_new_closed a N) as [Hnil Hcons];
       destruct (decide (MinesweeperAI.knowledge a = [])) as [Hk0|Hk0];
       [by rewrite (Hnil Hk0)|rewrite (Hcons Hk0); simpl; set_solver]|]
  end.
  apply Hsub in Hx. simpl in Hx.
  apply elem_of_list_to_set, list_elem_of_filter in Hx as [_ Hx].
  destruct Hc as [Hi Hj].
  apply neighbors_exact_in in Hx as [Hin _]; simpl; try lia.
  unfold inside. simpl in Hin. lia.
Qed.

Lemma on_board_add_knowledge self c n :
  MinesweeperAI.height self = Minesweeper.height b →
  MinesweeperAI.width self = Minesweeper.width b →
  inside b c → on_board b self →
  on_board b (MinesweeperAI.add_knowledge self c n).
Proof.
  intros Hh Hw Hc Hself. unfold MinesweeperAI.add_knowledge.
  by apply on_board_mark_cells, on_board_resolve, on_board_mark_cells,
           on_board_add_sentence.
Qed.

Lemma on_board_observe_all self (calls : list (cell * Z)) :
  MinesweeperAI.height self = Minesweeper.height b →
  MinesweeperAI.width self = Minesweeper.width b →
  Forall (truthful b) calls → on_board b self →
  on_board b (MinesweeperAI.observe_all self calls).
Proof.
  revert self. induction calls as [|[c n] calls IH];
    intros self Hh Hw Hcalls Hself; simpl; [done|].
  apply Forall_cons in Hcalls as [(Hc & _) Hcalls].
  destruct (add_knowledge_frame_all self c n) as (Hh' & Hw' & _).
  apply IH; [congruence|congruence|done|].
  by apply on_board_add_knowledge.
Qed.
End on_the_board.

(** X19: under the contract of [add_knowledge] (each call gives a cell of
    one board, on the grid and not a mine, with the count [nearby_mines]
    returns for it), started from a fresh player of the board's size, a
    every cell of [safes] is a cell of the grid that is not a mine of the
    board, and a cell that [make_safe_move] returns is moreover none of the
    cells the calls were for. *)
Theorem safe_move_is_safe (b : Board) (calls : list (cell * Z)) (c : cell) :
  well_formed b →
  Forall (truthful b) calls →
  let self := MinesweeperAI.observe_all
                (MinesweeperAI.init (Minesweeper.height b) (Minesweeper.width b))
                calls in
  (c ∈ MinesweeperAI.safes self →
   inside b c ∧ Minesweeper.is_mine b c = Some false)
  ∧ (MinesweeperAI.make_safe_move self = Some c →
     inside b c ∧ Minesweeper.is_mine b c = Some false ∧ c ∉ calls.*1).
Proof.
  intros Hwf Hcalls self.
  assert (Hsafe : c ∈ MinesweeperAI.safes self →
                  inside b c ∧ Minesweeper.is_mine b c = Some false).
  { intros Hc.
    destruct (sound_observe_all b Hwf
                (MinesweeperAI.init (Minesweeper.height b) (Minesweeper.width b))
                calls) as (_ & _ & _ & Hs & _); [by apply sound_init|done|].
    destruct (on_board_observe_all b
                (MinesweeperAI.init (Minesweeper.height b) (Minesweeper.width b))
                calls) as [Hin _]; [done|done|done| |].
    { split; simpl; [intros x Hx; set_solver|].
      intros s x Hs'. by apply elem_of_nil in Hs'. }
    split; [by apply Hin|].
    destruct (is_mine_inside b Hwf c) as (v & Hv & Hm); [by apply Hin|].
    rewrite (Hs c Hc) in Hm. by subst v. }
  split; [done|]. intros Hmove.
  destruct (make_safe_move_found self) as [Hspec _].
  destruct (Hspec c Hmove) as [Hc Hnew].
  destruct (Hsafe Hc) as [Hin Hm]. split; [done|]. split; [done|].
  destruct add_knowledge_frame_calls as [_ Hmoves].
  destruct (Hmoves (Minesweeper.height b) (Minesweeper.width b) calls) as [Heq _].
  fold self in Heq. rewrite Heq in Hnew. set_solver.
Qed.

Lemma safe_move_is_safe_witness :
  MinesweeperAI.make_safe_move
    (MinesweeperAI.observe_all (MinesweeperAI.init 1 3) [((0, 0), 0)]) = Some (0, 1)
  ∧ inside board_1x3 (0, 1)
  ∧ Minesweeper.is_mine board_1x3 (0, 1) = Some false
  ∧ (0, 1) ∉ [((0, 0), 0)].*1.
Proof.
  assert (Hmove : MinesweeperAI.make_safe_move
            (MinesweeperAI.observe_all (MinesweeperAI.init 1 3) [((0, 0), 0)])
          = Some (0, 1)) by (vm_compute; reflexivity).
  split; [exact Hmove|].
  destruct (safe_move_is_safe board_1x3 [((0, 0), 0)] (0, 1)) as [_ H].
  - split; [reflexivity|]. repeat constructor.
  - constructor; [|constructor].
    split; [|split]; [|reflexivity|reflexivity].
    unfold inside. simpl. lia.
  - apply H. exact Hmove.
Defined.

(** ** The resolution pass inside [add_knowledge] *)

(** C5: the sentences derived by the resolution pass are exactly the
    differences [B - A] (cells [B.cells ∖ A.cells], count
    [B.count - A.count]) over the ordered pairs of unequal sentences of
    [knowledge] with [A.cells ⊆ B.cells], kept only when the cell set is
    not empty, the count is not negative and no equal sentence is in
    [knowledge].  A call of [add_knowledge] appends exactly these
    sentences, derived from the knowledge it has after its first deduction
    pass, and then runs the second pass on the result.  When that knowledge
    holds exactly {a,b,c}=2 and {a,b}=1, the call derives {c}=1 alone and
    appends it, the second pass finds [c] and nothing else, and when the
    call returns [c] is in [mines]. *)
Theorem resolution_rule :
  (∀ (k : list Sentence) (s : Sentence),
     s ∈ MinesweeperAI.new_sentences k ↔
     ∃ A B, A ∈ k ∧ B ∈ k ∧ A ≠ B
            ∧ Sentence.cells A ⊆ Sentence.cells B
            ∧ s = Sentence.mk (Sentence.cells B ∖ Sentence.cells A)
                              (Sentence.count B - Sentence.count A)
            ∧ Sentence.cells s ≠ ∅ ∧ 0 ≤ Sentence.count s ∧ s ∉ k)
  ∧ (∀ (self : AI) (a b c : cell),
       a ≠ b → a ≠ c → b ≠ c →
       MinesweeperAI.knowledge self
         ≡ₚ [Sentence.mk {[a; b; c]} 2; Sentence.mk {[a; b]} 1] →
       MinesweeperAI.new_sentences (MinesweeperAI.knowledge self)
         = [Sentence.mk {[c]} 1]
       ∧ MinesweeperAI.knowledge (MinesweeperAI.resolve self)
         = MinesweeperAI.knowledge self ++ [Sentence.mk {[c]} 1]
       ∧ c ∈ MinesweeperAI.mines
               (MinesweeperAI.mark_cells (MinesweeperAI.resolve self)))
  ∧ (∀ (self : AI) (revealed : cell) (n : Z),
       let scanned :=
         MinesweeperAI.mark_cells (MinesweeperAI.add_sentence self revealed n) in
       let resolved := MinesweeperAI.resolve scanned in
       MinesweeperAI.knowledge resolved
       = MinesweeperAI.knowledge scanned
         ++ MinesweeperAI.new_sentences (MinesweeperAI.knowledge scanned)
       ∧ MinesweeperAI.add_knowledge self revealed n
         = MinesweeperAI.mark_cells resolved
       ∧ MinesweeperAI.knowledge (MinesweeperAI.add_knowledge self revealed n)
         = map (reduced (new_safes resolved) (new_mines resolved))
               (MinesweeperAI.knowledge scanned
                ++ MinesweeperAI.new_sentences (MinesweeperAI.knowledge scanned)))
  ∧ (∀ (self : AI) (revealed : cell) (n : Z) (a b c : cell),
       a ≠ b → a ≠ c → b ≠ c →
       MinesweeperAI.knowledge
         (MinesweeperAI.mark_cells (MinesweeperAI.add_sentence self revealed n))
         ≡ₚ [Sentence.mk {[a; b; c]} 2; Sentence.mk {[a; b]} 1] →
       let scanned :=
         MinesweeperAI.mark_cells (MinesweeperAI.add_sentence self revealed n) in
       MinesweeperAI.new_sentences (MinesweeperAI.knowledge scanned)
       = [Sentence.mk {[c]} 1]
       ∧ MinesweeperAI.knowledge (MinesweeperAI.add_knowledge self revealed n)
         = map (reduced ∅ ({[c]} ∖ MinesweeperAI.mines scanned))
               (MinesweeperAI.knowledge scanned ++ [Sentence.mk {[c]} 1])
       ∧ MinesweeperAI.mines (MinesweeperAI.add_knowledge self revealed n)
         = MinesweeperAI.mines scanned ∪ {[c]}
       ∧ c ∈ MinesweeperAI.mines (MinesweeperAI.add_knowledge self revealed n)).
Proof.
  assert (Hscenario : ∀ (self : AI) (a b c : cell),
       a ≠ b → a ≠ c → b ≠ c →
       MinesweeperAI.knowledge self
         ≡ₚ [Sentence.mk {[a; b; c]} 2; Sentence.mk {[a; b]} 1] →
       MinesweeperAI.new_sentences (MinesweeperAI.knowledge self)
         = [Sentence.mk {[c]} 1]
       ∧ MinesweeperAI.knowledge (MinesweeperAI.resolve self)
         = MinesweeperAI.knowledge self ++ [Sentence.mk {[c]} 1]
       ∧ c ∈ MinesweeperAI.mines
               (MinesweeperAI.mark_cells (MinesweeperAI.resolve self))).
  { intros self a b c Hab Hac Hbc Hk.
    assert (Hnew : MinesweeperAI.new_sentences (MinesweeperAI.knowledge self)
                   = [Sentence.mk {[c]} 1]).
    { assert (Hd : ({[a; b; c]} : gset cell) ∖ {[a; b]} = {[c]}) by set_solver.
      assert (Hn : ¬ ({[a; b; c]} : gset cell) ⊆ {[a; b]}) by set_solver.
      assert (Hs : ({[a; b]} : gset cell) ⊆ {[a; b; c]}) by set_solver.
      assert (Hc : ({[c]} : gset cell) ≠ {[a; b; c]}) by set_solver.
      assert (Hc' : ({[c]} : gset cell) ≠ {[a; b]}) by set_solver.
      assert (Hk' : Sentence.mk {[c]} 1
                    ∉ [Sentence.mk {[a; b; c]} 2; Sentence.mk {[a; b]} 1]).
      { rewrite !elem_of_cons, elem_of_nil.
        intros [H|[H|[]]]; apply (f_equal Sentence.cells) in H; cbn in H; done. }
      assert (Hk'' : Sentence.mk {[c]} 1
                     ∉ [Sentence.mk {[a; b]} 1; Sentence.mk {[a; b; c]} 2]).
      { rewrite !elem_of_cons, elem_of_nil.
        intros [H|[H|[]]]; apply (f_equal Sentence.cells) in H; cbn in H; done. }
      symmetry in Hk. apply Permutation_length_2_inv in Hk as [-> | ->];
        unfold MinesweeperAI.new_sentences; cbn [flat_map];
        rewrite !infer_same,
          (infer_not_subset _ (Sentence.mk {[a; b; c]} 2) (Sentence.mk {[a; b]} 1))
          by exact Hn;
        rewrite (infer_derive _ (Sentence.mk {[a; b]} 1) (Sentence.mk {[a; b; c]} 2));
        cbn [Sentence.cells Sentence.count];
        rewrite ?Hd; try done; try lia; try set_solver. }
    split; [done|].
    split; [unfold MinesweeperAI.resolve; simpl; by rewrite Hnew|].
    apply mark_cells_mines. right. exists (Sentence.mk {[c]} 1). split.
    - unfold MinesweeperAI.resolve. simpl. rewrite Hnew. set_solver.
    - unfold Sentence.known_mines. cbn [Sentence.cells Sentence.count].
      rewrite size_singleton. set_solver. }
  split; [apply new_sentences_spec|]. split; [exact Hscenario|]. split.
  - intros self revealed n scanned resolved.
    split; [done|]. split; [done|].
    change (MinesweeperAI.add_knowledge self revealed n)
      with (MinesweeperAI.mark_cells resolved).
    by rewrite mark_cells_closed.
  - intros self revealed n a b c Hab Hac Hbc Hk scanned.
    destruct (Hscenario scanned a b c Hab Hac Hbc Hk) as (Hnew & Hres & Hmine).
    split; [done|].
    change (MinesweeperAI.add_knowledge self revealed n)
      with (MinesweeperAI.mark_cells (MinesweeperAI.resolve scanned)).
    assert (Hin : ∀ s, s ∈ MinesweeperAI.knowledge (MinesweeperAI.resolve scanned) ↔
                       s = Sentence.mk {[a; b; c]} 2 ∨ s = Sentence.mk {[a; b]} 1
                       ∨ s = Sentence.mk {[c]} 1).
    { intros s. rewrite Hres, elem_of_app, list_elem_of_singleton.
      fold scanned in Hk. rewrite Hk, !elem_of_cons, elem_of_nil. tauto. }
    assert (Hsize3 : size ({[a; b; c]} : gset cell) = 3%nat).
    { rewrite !size_union, !size_singleton by set_solver. done. }
    assert (Hsize2 : size ({[a; b]} : gset cell) = 2%nat).
    { rewrite !size_union, !size_singleton by set_solver. done. }
    assert (Hsafes : new_safes (MinesweeperAI.resolve scanned) = ∅).
    { apply set_eq. intros x. unfold new_safes.
      rewrite elem_of_difference, elem_of_union_list. split; [|set_solver].
      intros [(X & (s & -> & Hs)%list_elem_of_fmap & Hx) _].
      apply Hin in Hs as [-> |[-> | ->]]; by vm_compute in Hx. }
    assert (Hmines : new_mines (MinesweeperAI.resolve scanned)
                     = {[c]} ∖ MinesweeperAI.mines scanned).
    { apply set_eq. intros x. unfold new_mines.
      rewrite !elem_of_difference, elem_of_union_list.
      change (MinesweeperAI.mines (MinesweeperAI.resolve scanned))
        with (MinesweeperAI.mines scanned).
      split.
      - intros [(X & (s & -> & Hs)%list_elem_of_fmap & Hx) Hn]. split; [|done].
        unfold Sentence.known_mines in Hx.
        apply Hin in Hs as [-> |[-> | ->]];
          cbn [Sentence.cells Sentence.count] in Hx;
          rewrite ?Hsize3, ?Hsize2, ?size_singleton in Hx;
          by case_bool_decide.
      - intros [Hx Hn]. split; [|done].
        exists (Sentence.known_mines (Sentence.mk {[c]} 1)). split.
        + apply list_elem_of_fmap. eexists. split; [done|]. apply Hin. tauto.
        + unfold Sentence.known_mines. cbn [Sentence.cells Sentence.count].
          by rewrite size_singleton. }
    rewrite mark_cells_closed, Hsafes, Hmines.
    cbn [MinesweeperAI.knowledge MinesweeperAI.mines].
    change (MinesweeperAI.mines (MinesweeperAI.resolve scanned))
      with (MinesweeperAI.mines scanned).
    rewrite Hres.
    assert (Hunion : MinesweeperAI.mines scanned
                     ∪ {[c]} ∖ MinesweeperAI.mines scanned
                     = MinesweeperAI.mines scanned ∪ {[c]}).
    { apply set_eq. intros x.
      destruct (decide (x ∈ MinesweeperAI.mines scanned)); set_solver. }
    rewrite Hunion. split; [done|]. split; [done|]. set_solver.
Qed.

Lemma resolution_rule_witness :
  MinesweeperAI.new_sentences
    (MinesweeperAI.knowledge
       (MinesweeperAI.mark_cells
          (MinesweeperAI.add_sentence
             (MinesweeperAI.observe_all (MinesweeperAI.init 2 2) [((0, 0), 2)])
             (0, 1) 1)))
  = [Sentence.mk {[(0, 1)]} 1]
  ∧ (0, 1) ∈ MinesweeperAI.mines
               (MinesweeperAI.add_knowledge
                  (MinesweeperAI.observe_all (MinesweeperAI.init 2 2) [((0, 0), 2)])
                  (0, 1) 1).
Proof.
  destruct resolution_rule as (_ & _ & _ & H).
  destruct (H (MinesweeperAI.observe_all (MinesweeperAI.init 2 2) [((0, 0), 2)])
              (0, 1) 1 (1, 0) (1, 1) (0, 1)) as (Hnew & _ & _ & Hmine).
  - discriminate.
  - discriminate.
  - discriminate.
  - vm_compute. reflexivity.
  - split; [exact Hnew | exact Hmine].
Defined.
